(** * magics_diff_simulator: the policy-gradient agent and the kinematic renderer

    A shallow embedding of [agents/_deep_arm_rbdl.py] (class [Deep_Arm_rbdl])
    and [jaxRBDL/Simulator/ObdlRender.py] (classes [RenderObject] and
    [ObdlRender]).

    Conventions of the embedding.
    - Python floats and the entries of numpy/jax arrays are real numbers
      ([R]): rounding, infinities and NaN are not modelled, so a statement
      over [R] is about the formula the code evaluates, in exact
      arithmetic.  Where rounding decides whether a statement holds of the
      program, [Binary64] embeds [update] a second time, on numpy float64
      arrays, with the binary64 numbers of the kernel.
    - The array operations that [update] and [policy] call ([np.linalg.norm],
      scalar product, [-], [jnp.dot], [+], [jax.nn.relu]) form the interface
      [ArrayLib]; both functions are written against the interface, and
      [ndarray] (a shape and the entries in row-major order) implements it.
    - Python objects that are mutated in place (the agent, the renderer and
      its render objects) are records threaded through the functions.
    - A Python exception is [None]; [reset], which raises only after it
      has assigned most attributes, returns the agent and a flag.
    - Functions of other libraries whose values the statements do not
      depend on (the forward kinematics, the quaternion conversion, the
      random generators) are section variables.
    - The dictionaries from names to indices that [get_objects] builds are
      finite maps ([gmap string nat]); a missing key is a [KeyError]. *)

From Stdlib Require Import Reals Lra Lia ZArith String.
From Stdlib Require PrimFloat.
From stdpp Require Import base option list strings gmap.

Local Open Scope R_scope.

(** ** Python built-ins *)

(** [min(a, b)] returns its first argument unless the second is strictly
    smaller. *)
Definition py_min (a b : R) : R := if Rlt_dec b a then b else a.

(** [l[i]] for a Python sequence or a numpy axis: a negative index counts
    from the end, an index outside [-len, len) raises [IndexError]. *)
Definition py_get {A} (l : list A) (i : Z) : option A :=
  if (0 <=? i)%Z then l !! Z.to_nat i
  else if (- Z.of_nat (length l) <=? i)%Z then l !! Z.to_nat (Z.of_nat (length l) + i)
  else None.

(** ** The array library *)

(** The operations are total functions: the error that numpy and jax raise
    for operands whose shapes do not fit is not modelled, and no statement
    below says that a call of them succeeds. *)
Class ArrayLib (arr : Type) : Type := {
  norm : arr -> R;          (* np.linalg.norm(a) *)
  scal : R -> arr -> arr;   (* c * a, c a Python float *)
  sub : arr -> arr -> arr;  (* a - b *)
  dot : arr -> arr -> arr;  (* jnp.dot(a, b) *)
  add : arr -> arr -> arr;  (* a + b *)
  relu : arr -> arr         (* jax.nn.relu(a) *)
}.

(** *** Arrays as shape and entries *)

Record ndarray : Type := mk_ndarray { shape : list nat; data : list R }.

Definition size_of (s : list nat) : nat := foldr Nat.mul 1%nat s.

(** The invariant of every array numpy builds. *)
Definition nd_wf (a : ndarray) : Prop := length (data a) = size_of (shape a).

Definition same_shape (a b : ndarray) : Prop :=
  shape a = shape b /\ length (data a) = length (data b).

Definition sum_sq (l : list R) : R := foldr (fun x acc => x * x + acc) 0 l.

(** [np.linalg.norm] without [ord] and [axis]: the 2-norm of the flattened
    array. *)
Definition nd_norm (a : ndarray) : R := sqrt (sum_sq (data a)).

Definition nd_scal (c : R) (a : ndarray) : ndarray :=
  mk_ndarray (shape a) (Rmult c <$> data a).

(** Elementwise operations are modelled on operands of one shape; numpy
    broadcasts or rejects operands of different shapes, which the statements
    below exclude by [same_shape] where they depend on it. *)
Definition nd_sub (a b : ndarray) : ndarray :=
  mk_ndarray (shape a) (zip_with Rminus (data a) (data b)).

Definition nd_add (a b : ndarray) : ndarray :=
  mk_ndarray (shape a) (zip_with Rplus (data a) (data b)).

Definition nd_relu (a : ndarray) : ndarray :=
  mk_ndarray (shape a) (Rmax 0 <$> data a).

(** [jnp.zeros(s)]. *)
Definition nd_zeros (s : list nat) : ndarray :=
  mk_ndarray s (replicate (size_of s) 0).

(** The rows of a two-dimensional array with [n] columns. *)
Fixpoint rows_of (m n : nat) (l : list R) : list (list R) :=
  match m with
  | O => []
  | S m' => take n l :: rows_of m' n (drop n l)
  end.

(** [jnp.dot(a, w)] for a vector [a] of shape (m,) and a matrix [w] of shape
    (m, n): entry [j] is the sum over [i] of [a[i] * w[i][j]]. *)
Definition nd_dot (a w : ndarray) : ndarray :=
  let n := match shape w with [_; n] => n | _ => O end in
  mk_ndarray [n]
    (foldr (fun '(x, row) acc => zip_with Rplus (Rmult x <$> row) acc)
           (replicate n 0)
           (zip (data a) (rows_of (length (data a)) n (data w)))).

#[export] Instance ndarray_lib : ArrayLib ndarray := {
  norm := nd_norm; scal := nd_scal; sub := nd_sub;
  dot := nd_dot; add := nd_add; relu := nd_relu
}.

(** ** agents/_deep_arm_rbdl.py *)

Module Agent.

(** *** [update] and [policy], over any array library *)

Section Networks.
Context {arr : Type} `{ArrayLib arr}.

(** A network: the list of its (weight, bias) layers. *)
Local Abbreviation layers := (list (arr * arr)) (only parsing).

(** The loop of [update] that accumulates [total_norm_sqr]. *)
Definition total_norm_sqr (grads : layers) : R :=
  foldl (fun total '(dw, db) => total + norm dw ^ 2 + norm db ^ 2) 0 grads.

Definition gradient_clip : R := 0.2.

Definition clip_scale (grads : layers) : R :=
  py_min 1.0 (gradient_clip / (sqrt (total_norm_sqr grads) + 1e-4)).

Definition update (grads params : layers) (lr : R) : layers :=
  let scale := clip_scale grads in
  zip_with (fun '(w, b) '(dw, db) =>
              (sub w (scal (lr * scale) dw), sub b (scal (lr * scale) db)))
           params grads.

(** [policy] raises [IndexError] at [params[-1]] when [params] is empty. *)
Definition policy (state : arr) (params : layers) : option arr :=
  let activations :=
    foldl (fun activations '(w, b) => relu (add (dot activations w) b))
          state (removelast params) in
  '(final_w, final_b) ← last params;
  Some (add (dot activations final_w) final_b).

(** *** What the specification says, in its own words *)

(** T: the sum over all pairs of ||dw||^2 + ||db||^2. *)
Definition sum_norm_sqr (grads : layers) : R :=
  foldr (fun '(dw, db) rest => (norm dw ^ 2 + norm db ^ 2) + rest) 0 grads.

(** scale = min(1.0, 0.2 / (sqrt(T) + 1e-4)). *)
Definition spec_scale (grads : layers) : R :=
  Rmin 1 (0.2 / (sqrt (sum_norm_sqr grads) + 1e-4)).

Definition affine (x w b : arr) : arr := add (dot x w) b.

(** Affine layers with ReLU after every layer except the last; no layer,
    no output. *)
Fixpoint feed_forward (x : arr) (params : layers) : option arr :=
  match params with
  | [] => None
  | (w, b) :: rest =>
      match rest with
      | [] => Some (affine x w b)
      | _ :: _ => feed_forward (relu (affine x w b)) rest
      end
  end.

End Networks.

(** *** The agent object *)

(** A Python value held by [self.action]: [reset] stores an element of the
    action space (an integer), [__call__] stores the array [policy]
    returns. *)
Inductive pyval (arr : Type) : Type :=
| PyInt (i : Z)
| PyArr (a : arr).
Arguments PyInt {arr} i.
Arguments PyArr {arr} a.

(** The attributes of a [Deep_Arm_rbdl]; [key] is the state of
    [utils.Random]. *)
Record agent (arr key : Type) : Type := mk_agent {
  env_state_size : nat;
  action_space : list Z;
  max_episode_length : nat;
  lr : R;
  gamma : R;
  random : key;
  params : list (arr * arr);
  value_params : list (arr * arr);
  W : arr;
  episode_rewards : arr;
  episode_grads : arr;
  current_episode_length : nat;
  current_episode_reward : R;
  state : arr;
  action : pyval arr;
  probs : arr
}.
Arguments mk_agent {arr key}.
Arguments env_state_size {arr key} a.
Arguments action_space {arr key} a.
Arguments max_episode_length {arr key} a.
Arguments lr {arr key} a.
Arguments gamma {arr key} a.
Arguments random {arr key} a.
Arguments params {arr key} a.
Arguments value_params {arr key} a.
Arguments W {arr key} a.
Arguments episode_rewards {arr key} a.
Arguments episode_grads {arr key} a.
Arguments current_episode_length {arr key} a.
Arguments current_episode_reward {arr key} a.
Arguments state {arr key} a.
Arguments action {arr key} a.
Arguments probs {arr key} a.

(** *** [__call__] *)

Section Call.
Context {arr key : Type} `{ArrayLib arr}.

Definition set_state (a : agent arr key) (s : arr) : agent arr key :=
  mk_agent (env_state_size a) (action_space a) (max_episode_length a) (lr a)
    (gamma a) (random a) (params a) (value_params a) (W a)
    (episode_rewards a) (episode_grads a) (current_episode_length a)
    (current_episode_reward a) s (action a) (probs a).

Definition set_action (a : agent arr key) (v : pyval arr) : agent arr key :=
  mk_agent (env_state_size a) (action_space a) (max_episode_length a) (lr a)
    (gamma a) (random a) (params a) (value_params a) (W a)
    (episode_rewards a) (episode_grads a) (current_episode_length a)
    (current_episode_reward a) (state a) v (probs a).

(** [self.state = state; self.action = self.policy(state, params);
    return self.action].  When [policy] raises, [self.state] is already
    assigned. *)
Definition call (a : agent arr key) (s : arr) (ps : list (arr * arr))
  : agent arr key * option (pyval arr) :=
  let a1 := set_state a s in
  match policy s ps with
  | Some logits =>
      let a2 := set_action a1 (PyArr logits) in (a2, Some (action a2))
  | None => (a1, None)
  end.

End Call.

(** *** [reset] *)

Section Reset.
Variable key : Type.
(** [utils.Random.generate_key]: the generator's next state and the key it
    hands out. *)
Variable generate_key : key -> key * key.
(** The entries [jax.random.uniform] draws for a key, in row-major order. *)
Variable uniform_stream : key -> nat -> R.
(** The successive draws of [numpy.random.RandomState(0).randn]. *)
Variable randn_stream : nat -> R.

(** [rng.randn] with the dimensions [s]; the generator is the number of
    draws already made. *)
Definition randn (s : list nat) (rng : nat) : ndarray * nat :=
  (mk_ndarray s (randn_stream <$> seq rng (size_of s)), (rng + size_of s)%nat).

(** One element of the list comprehension of [init_random_params]: the
    weight is drawn before the bias. *)
Definition init_layer (scale : R) (mn : nat * nat) (rng : nat)
  : (ndarray * ndarray) * nat :=
  let '(m, n) := mn in
  let '(w, rng1) := randn [m; n] rng in
  let '(b, rng2) := randn [n] rng1 in
  ((nd_scal scale w, nd_scal scale b), rng2).

Fixpoint init_layers (scale : R) (dims : list (nat * nat)) (rng : nat)
  : list (ndarray * ndarray) * nat :=
  match dims with
  | [] => ([], rng)
  | mn :: rest =>
      let '(l, rng1) := init_layer scale mn rng in
      let '(ls, rng2) := init_layers scale rest rng1 in
      (l :: ls, rng2)
  end.

(** [zip(layer_sizes[:-1], layer_sizes[1:])]. *)
Definition init_random_params (scale : R) (layer_sizes : list nat) (rng : nat)
  : list (ndarray * ndarray) * nat :=
  init_layers scale (zip (removelast layer_sizes) (tail layer_sizes)) rng.

(** [jnp.sum]. *)
Definition nd_sum (a : ndarray) : R := foldr Rplus 0 (data a).

(** [reset] returns the agent as the call leaves it and whether it returned
    ([true]) or raised [IndexError] at [self.action_space[0]] ([false]); the
    attributes assigned before that line are assigned in both cases.  The
    default generator [npr.RandomState(0)] is created when [reset] defines
    [init_random_params], so the two calls of one [reset] share it. *)
Definition reset (a : agent ndarray key) : agent ndarray key * bool :=
  let rng0 := O in
  let layer_sizes := [env_state_size a; 128; 128; length (action_space a)]%nat in
  let param_scale := 0.1 in
  let '(ps, rng1) := init_random_params param_scale layer_sizes rng0 in
  let critic_layer_sizes := [env_state_size a; 128; 128; 1]%nat in
  let '(vps, _) := init_random_params param_scale critic_layer_sizes rng1 in
  let '(random', subkey) := generate_key (random a) in
  let w_shape := [env_state_size a; length (action_space a)] in
  let w := mk_ndarray w_shape (uniform_stream subkey <$> seq 0 (size_of w_shape)) in
  let rewards := nd_zeros [max_episode_length a] in
  let grads :=
    nd_zeros [max_episode_length a; nth 0 (shape w) O; nth 1 (shape w) O] in
  let st := nd_zeros [env_state_size a] in
  match action_space a with
  | [] =>
      (mk_agent (env_state_size a) (action_space a) (max_episode_length a)
         (lr a) (gamma a) random' ps vps w rewards grads O 0 st
         (action a) (probs a), false)
  | a0 :: _ =>
      let ones := mk_ndarray [length (action_space a)]
                    (replicate (length (action_space a)) 1) in
      let pr := mk_ndarray (shape ones)
                  ((fun x => x * 1 / nd_sum ones) <$> data ones) in
      (mk_agent (env_state_size a) (action_space a) (max_episode_length a)
         (lr a) (gamma a) random' ps vps w rewards grads O 0 st
         (PyInt a0) pr, true)
  end.

End Reset.

(** *** [feed] *)

Section Feed.
Context {key : Type}.

(** [softmax_grad]: [diagflat(s) - dot(s, s.T)] for the column [s] of the
    flattened argument. *)
Definition softmax_grad (softmax : ndarray) : ndarray :=
  let s := data softmax in
  mk_ndarray [length s; length s]
    (concat (imap (fun i si =>
                     imap (fun j sj => (if (i =? j)%nat then si else 0) - si * sj) s)
                  s)).

(** The position a jax array reads for the integer index [i] on an axis of
    length [n]: negative indices count from the end, and the result is
    clamped to the axis. *)
Definition jnp_pos (n : nat) (i : Z) : nat :=
  let j := if (i <? 0)%Z then (i + Z.of_nat n)%Z else i in
  Z.to_nat (Z.max 0 (Z.min (Z.of_nat n - 1) j)).

(** Slice [k] along the first axis, as its entries. *)
Definition nd_slice (a : ndarray) (k : nat) : list R :=
  let sz := size_of (tail (shape a)) in
  take sz (drop (k * sz) (data a)).

(** The gradient [feed] computes, for a one-dimensional [probs] and an
    integer action; [None] when [self.action] is an array (jax rejects a
    float array as an index) or [probs] has another rank, which is outside
    this model.  The division is that of [R]; where [probs[action]] is 0
    the code gets nan (see [prob_of_action] below). *)
Definition feed_grad (a : agent ndarray key) : option ndarray :=
  match action a, shape (probs a) with
  | PyInt act, [n] =>
      let pos := jnp_pos n act in
      let dsoftmax := nd_slice (softmax_grad (probs a)) pos in
      let dlog := (fun x => x / nth pos (data (probs a)) 0) <$> dsoftmax in
      Some (mk_ndarray [length (data (state a)); length dlog]
              (concat ((fun x => Rmult x <$> dlog) <$> data (state a))))
  | _, _ => None
  end.

(** The values [index_update] writes into a slot of shape [slot]: a scalar
    is broadcast, an array of the slot's shape is taken as it is; other
    shapes are outside this model. *)
Definition broadcast_to (v : ndarray) (slot : list nat) : option (list R) :=
  match shape v, data v with
  | [], [x] => Some (replicate (size_of slot) x)
  | _, _ => if decide (shape v = slot) then Some (data v) else None
  end.

(** A copy of [x], of shape [d :: slot], with the entries of slot [k]
    replaced by [vals]; an update outside the first axis is dropped. *)
Definition put_slice (x : ndarray) (d : nat) (slot : list nat) (k : nat)
    (vals : list R) : ndarray :=
  let sz := size_of slot in
  if (k <? d)%nat
  then mk_ndarray (shape x)
         (take (k * sz) (data x) ++ vals ++ drop ((k + 1) * sz) (data x))
  else x.

(** [jax.ops.index_update(x, k, y)]: a copy of [x] with [x[k] = y]. *)
Definition index_update (x : ndarray) (k : nat) (y : ndarray) : option ndarray :=
  match shape x with
  | [] => None
  | d :: slot =>
      vals ← broadcast_to y slot;
      Some (put_slice x d slot k vals)
  end.

Definition feed (a : agent ndarray key) (reward : R) : option (agent ndarray key) :=
  grad ← feed_grad a;
  rewards ← index_update (episode_rewards a) (current_episode_length a)
              (mk_ndarray [] [reward]);
  grads ← index_update (episode_grads a) (current_episode_length a) grad;
  Some (mk_agent (env_state_size a) (action_space a) (max_episode_length a)
          (lr a) (gamma a) (random a) (params a) (value_params a) (W a)
          rewards grads (S (current_episode_length a))
          (current_episode_reward a) (state a) (action a) (probs a)).

End Feed.

(** *** Vocabulary of the statements about [update] *)

Section Change.
Context {arr : Type} `{ArrayLib arr}.

(** The terms [lr * scale * dw] and [lr * scale * db] of the comprehension
    of [update], pair by pair. *)
Definition update_steps (grads : list (arr * arr)) (lr : R) : list (arr * arr) :=
  let scale := clip_scale grads in
  (fun '(dw, db) => (scal (lr * scale) dw, scal (lr * scale) db)) <$> grads.

(** [(w - sw, b - sb)] for the parameters zipped with the terms [sw], [sb]
    subtracted from them. *)
Definition minus_steps (params steps : list (arr * arr)) : list (arr * arr) :=
  zip_with (fun '(w, b) '(sw, sb) => (sub w sw, sub b sb)) params steps.

End Change.

(** The element of the comprehension of [update] for a fixed factor
    [c = lr * scale]. *)
Definition step (c : R) (p g : ndarray * ndarray) : ndarray * ndarray :=
  let '(w, b) := p in let '(dw, db) := g in
  (sub w (scal c dw), sub b (scal c db)).

Definition nd_is_zero (a : ndarray) : Prop := Forall (fun x => x = 0) (data a).

Definition zero_grads (grads : list (ndarray * ndarray)) : Prop :=
  Forall (fun g => nd_is_zero (fst g) /\ nd_is_zero (snd g)) grads.

(** Each gradient that [zip] pairs with a parameter has its shape. *)
Definition shapes_match (params grads : list (ndarray * ndarray)) : Prop :=
  Forall (fun pg => same_shape (fst (fst pg)) (fst (snd pg)) /\
                    same_shape (snd (fst pg)) (snd (snd pg)))
         (zip params grads).

(** *** Vocabulary of the statements about [reset] and [feed] *)

(** All entries of a network, layer after layer, weight before bias. *)
Definition entries (ps : list (ndarray * ndarray)) : list R :=
  concat ((fun l => data (fst l) ++ data (snd l)) <$> ps).

(** What [reset] establishes and [feed] relies on and keeps: the episode
    buffers have the shapes (max_episode_length,) and
    (max_episode_length, W.shape[0], W.shape[1]), [state] and [probs] have
    the sizes of the two axes of [W], and [action] is an integer. *)
Definition agent_inv {key : Type} (a : agent ndarray key) : Prop :=
  shape (episode_rewards a) = [max_episode_length a] /\
  nd_wf (episode_rewards a) /\
  nd_wf (episode_grads a) /\
  (exists i, action a = PyInt i) /\
  exists s0 s1,
    shape (W a) = [s0; s1] /\
    shape (episode_grads a) = [max_episode_length a; s0; s1] /\
    length (data (state a)) = s0 /\
    shape (probs a) = [s1] /\
    length (data (probs a)) = s1.

(** The shapes of the two episode buffers: (max_episode_length,) and
    (max_episode_length, W.shape[0], W.shape[1]). *)
Definition buffers_shaped {key : Type} (a : agent ndarray key) : Prop :=
  shape (episode_rewards a) = [max_episode_length a] /\
  nd_wf (episode_rewards a) /\
  shape (episode_grads a)
  = [max_episode_length a; nth 0 (shape (W a)) O; nth 1 (shape (W a)) O] /\
  nd_wf (episode_grads a).

(** [self.probs[self.action]], by which [feed] divides, for an integer
    action and a one-dimensional [probs].  Where it is 0 the code divides
    0 by 0 and fills the gradient with nan, which [R] cannot hold:
    statements about the values of the gradient assume it is not 0. *)
Definition prob_of_action {key : Type} (a : agent ndarray key) : option R :=
  match action a, shape (probs a) with
  | PyInt act, [n] => data (probs a) !! jnp_pos n act
  | _, _ => None
  end.

(** A freshly constructed agent with one state dimension, one action and an
    episode buffer of length 1, before [reset] fills it. *)
Definition small_agent : agent ndarray unit :=
  mk_agent 1 [0%Z] 1 0.001 0.99 tt [] [] (mk_ndarray [] [0])
    (mk_ndarray [] [0]) (mk_ndarray [] [0]) 0 0 (mk_ndarray [] [0])
    (PyInt 0) (mk_ndarray [] [0]).

(** [small_agent] after [reset], for generators that hand out the key they
    hold, draw 0.5 uniformly and draw 0, 1, 2, ... normally. *)
Definition ready_agent : agent ndarray unit :=
  fst (reset unit (fun k => (k, k)) (fun _ _ => 0.5) INR small_agent).

(** The shapes of the weight and of the bias of a layer. *)
Definition layer_shapes (l : ndarray * ndarray) : list nat * list nat :=
  (shape (fst l), shape (snd l)).

(** The number of draws [init_random_params] makes for the layer
    dimensions [dims]. *)
Definition draws (dims : list (nat * nat)) : nat :=
  foldr (fun mn acc => (size_of [fst mn; snd mn] + size_of [snd mn] + acc)%nat)
        O dims.

(** An agent in the middle of an episode: two state dimensions, two
    actions, a buffer of length 3 with one step recorded. *)
Definition busy_agent : agent ndarray unit :=
  mk_agent 2 [0%Z; 1%Z] 3 0.001 0.99 tt [] []
    (mk_ndarray [2; 2]%nat [0.1; 0.2; 0.3; 0.4])
    (mk_ndarray [3%nat] [5; 0; 0])
    (mk_ndarray [3; 2; 2]%nat [1; 2; 3; 4; 0; 0; 0; 0; 0; 0; 0; 0])
    1 5 (mk_ndarray [2%nat] [2; 3]) (PyInt 1) (mk_ndarray [2%nat] [0.25; 0.75]).

(** Two arrays of shape (1,) for the concrete instances below. *)
Definition arr_one : ndarray := mk_ndarray [1%nat] [1].
Definition arr_zero : ndarray := mk_ndarray [1%nat] [0].

(** Gradients (3) and (4): total norm 5, above the clip threshold. *)
Definition steep_grads : list (ndarray * ndarray) :=
  [(mk_ndarray [1%nat] [3], mk_ndarray [1%nat] [4])].

(** A network with two inputs, two hidden units and one output, and a
    state for it. *)
Definition demo_state : ndarray := mk_ndarray [2%nat] [1; 2].
Definition demo_net : list (ndarray * ndarray) :=
  [(mk_ndarray [2; 2]%nat [1; 0; 0; 1], mk_ndarray [2%nat] [0; -3]);
   (mk_ndarray [2; 1]%nat [2; 5], mk_ndarray [1%nat] [1])].

End Agent.

(** ** [update] on numpy float64 arrays *)

(** The entries of the arrays, [lr] and every intermediate value are
    binary64 numbers, and every operation rounds to nearest, ties to even,
    as numpy's float64 does.  An array is the list of its entries in
    row-major order: [update] uses the arrays only through
    [np.linalg.norm], which flattens them, and entry by entry.  The norm
    sums the squares from left to right; the order in which numpy sums
    does not matter for the one-entry arrays of the instances below, on
    which [** 2] and [** 0.5] are exact as well. *)
Module Binary64.
Import PrimFloat.
#[local] Set Warnings "-inexact-float".
Local Open Scope float_scope.

(** [min(a, b)]: [b] when [b < a], else [a]. *)
Definition py_min (a b : float) : float := if (b <? a) then b else a.

Definition norm (a : list float) : float :=
  sqrt (foldl (fun acc x => acc + x * x) 0 a).

Definition total_norm_sqr (grads : list (list float * list float)) : float :=
  foldl (fun total '(dw, db) => total + norm dw * norm dw + norm db * norm db)
        0 grads.

Definition gradient_clip : float := 0.2.

Definition clip_scale (grads : list (list float * list float)) : float :=
  py_min 1.0 (gradient_clip / (sqrt (total_norm_sqr grads) + 1e-4)).

Definition scal (c : float) (a : list float) : list float :=
  (fun x => c * x) <$> a.

Definition sub (a b : list float) : list float := zip_with PrimFloat.sub a b.

Definition update (grads params : list (list float * list float)) (lr : float)
  : list (list float * list float) :=
  let scale := clip_scale grads in
  zip_with (fun '(w, b) '(dw, db) =>
              (sub w (scal (lr * scale) dw), sub b (scal (lr * scale) db)))
           params grads.

(** *** Vocabulary of the statements *)

(** scale * sqrt(T), as the floats give it. *)
Definition scaled_norm (grads : list (list float * list float)) : float :=
  clip_scale grads * sqrt (total_norm_sqr grads).

(** The norm of the change from [old] to [new], over all entries. *)
Definition change_norm (old new : list (list float * list float)) : float :=
  sqrt (total_norm_sqr
          (zip_with (fun '(w, b) '(w', b') => (sub w w', sub b b')) old new)).

Definition lt (x y : float) : bool := x <? y.

Definition times (x y : float) : float := x * y.

(** *** Concrete instances *)

Definition zero : float := 0.
Definition one : float := 1.

(** A gradient of norm 2^40: adding 1e-4 to it changes nothing. *)
Definition huge_grads : list (list float * list float) := [([0x1p40], [0])].

(** A weight of 2^50, whose neighbours are 0.125 and 0.25 away, and a
    gradient of norm 10^6. *)
Definition large_params : list (list float * list float) := [([0x1p50], [0])].
Definition large_grads : list (list float * list float) := [([1e6], [0])].

(** 2^50 - 0.25. *)
Definition moved_params : list (list float * list float) :=
  [([0xfffffffffffffp-2], [0])].

End Binary64.

(** ** jaxRBDL/Simulator/ObdlRender.py *)

Module Render.

(** A row of the (NL, 3) arrays [rpys] and [j_rpys]: roll, pitch, yaw. *)
Record rpy3 : Type := mk_rpy { roll : R; pitch : R; yaw : R }.

Definition rpy_zero : rpy3 := mk_rpy 0 0 0.

(** [row[0] = v], [row[1] = v], [row[2] = v]. *)
Definition set_roll (r : rpy3) (v : R) : rpy3 := mk_rpy v (pitch r) (yaw r).
Definition set_pitch (r : rpy3) (v : R) : rpy3 := mk_rpy (roll r) v (yaw r).
Definition set_yaw (r : rpy3) (v : R) : rpy3 := mk_rpy (roll r) (pitch r) v.

(** [RenderObject]; the geometry attributes [shape] and [scale], which only
    [create_visualshape] reads, are left out. *)
Record RenderObject : Type := mk_obj {
  obj_type : string;
  origin : ndarray;
  parent_joint : Z;
  link_id : Z;
  body_id : Z;
  rgba : list R;
  position : ndarray;
  quat : ndarray;
  link_name : string
}.

Definition assign_pose (o : RenderObject) (pos q : ndarray) : RenderObject :=
  mk_obj (obj_type o) (origin o) (parent_joint o) (link_id o) (body_id o)
    (rgba o) pos q (link_name o).

(** [np.asarray(l)] for a flat sequence, and [a.flatten()]. *)
Definition asarray (l : list R) : ndarray := mk_ndarray [length l] l.
Definition flatten (a : ndarray) : ndarray := mk_ndarray [length (data a)] (data a).

(** A call of [pybullet.resetBasePositionAndOrientation]: the body, its
    position and its orientation. *)
Abbreviation engine_call := (Z * ndarray * ndarray)%type.

Section Renderer.
(** The entries of the model dictionary that only the kinematics library
    reads. *)
Variable kin : Type.

Record model_dict : Type := mk_model {
  parent : list Z;
  jtype : list Z;
  jaxis : list string;
  kinematics : kin
}.

(** [pyRBDL.Kinematics.CalcBodyToBaseCoordinates(model, q, body_id, point)]
    and [pybullet.getQuaternionFromEuler(rpy)]. *)
Variable CalcBodyToBaseCoordinates : model_dict -> list R -> Z -> ndarray -> ndarray.
Variable getQuaternionFromEuler : rpy3 -> list R.

(** [ObdlRender]; [engine] is the sequence of calls the physics engine has
    received. *)
Record ObdlRender : Type := mk_render {
  model : model_dict;
  NL : nat;
  render_objects : list RenderObject;
  rpy : rpy3;
  rpys : list rpy3;
  j_rpys : list rpy3;
  counted : list R;
  engine : list engine_call
}.

(** The branches of the loop body of [transform_rpy] that fill [_rpy]. *)
Definition joint_rpy (m : model_dict) (q : list R) (i : nat)
    (rows : list rpy3) (_pid : Z) (_rpy : rpy3) : option rpy3 :=
  if (i =? 0)%nat then
    jt ← jtype m !! 0%nat;
    if (jt =? 0)%Z then
      ax ← jaxis m !! 0%nat;
      if String.eqb ax "x" then q0 ← q !! 0%nat; Some (set_roll _rpy q0)
      else if String.eqb ax "y" then q0 ← q !! 0%nat; Some (set_pitch _rpy q0)
      else if String.eqb ax "z" then q0 ← q !! 0%nat; Some (set_yaw _rpy q0)
      else Some _rpy
    else Some _rpy
  else
    jt ← jtype m !! i;
    if (jt =? 0)%Z then
      ax ← jaxis m !! i;
      if String.eqb ax "x" then
        p ← py_get rows _pid; qi ← q !! i; Some (set_roll _rpy (roll p + qi))
      else if String.eqb ax "y" then
        p ← py_get rows _pid; qi ← q !! i; Some (set_pitch _rpy (pitch p + qi))
      else if String.eqb ax "z" then
        p ← py_get rows _pid; qi ← q !! i; Some (set_yaw _rpy (yaw p + qi))
      else if String.eqb ax "a" then
        p ← py_get rows _pid; qi ← q !! i; Some (set_roll _rpy (roll p - qi))
      else if String.eqb ax "b" then
        p ← py_get rows _pid; qi ← q !! i; Some (set_pitch _rpy (pitch p - qi))
      else if String.eqb ax "c" then
        p ← py_get rows _pid; qi ← q !! i; Some (set_yaw _rpy (yaw p - qi))
      else Some _rpy
    else Some _rpy.

(** One iteration of [for i in range(self.NL)]; [parent] comes from
    [self.model], [jtype] and [jaxis] from the argument [model]. *)
Definition rpy_iter (self_model m : model_dict) (q : list R)
    (acc : option (list rpy3)) (i : nat) : option (list rpy3) :=
  rows ← acc;
  p ← parent self_model !! i;
  let _pid := (p - 1)%Z in
  _rpy ← py_get rows _pid;
  _rpy' ← joint_rpy m q i rows _pid _rpy;
  Some (<[i := _rpy']> rows).

Definition set_rpys (self : ObdlRender) (rows : list rpy3) : ObdlRender :=
  mk_render (model self) (NL self) (render_objects self) (rpy self)
    rows rows (replicate (NL self) 0) (engine self).

(** [self.rpys = self.j_rpys] at the end makes both names one array. *)
Definition transform_rpy (self : ObdlRender) (m : model_dict) (q : list R)
  : option ObdlRender :=
  rows ← foldl (rpy_iter (model self) m q)
               (Some (replicate (NL self) rpy_zero)) (seq 0 (NL self));
  Some (set_rpys self rows).

Definition transform_pos (self : ObdlRender) (m : model_dict)
    (obj : RenderObject) (q : list R) : option (ndarray * ndarray) :=
  let local_pos := flatten (origin obj) in
  let _jid := (parent_joint obj + 1)%Z in
  let pos := CalcBodyToBaseCoordinates m q _jid local_pos in
  let _rid := parent_joint obj in
  r ← py_get (rpys self) _rid;
  let qua := getQuaternionFromEuler r in
  Some (flatten pos, flatten (asarray qua)).

Definition move_obj (eng : list engine_call) (o : RenderObject) : list engine_call :=
  eng ++ [(body_id o, position o, quat o)].

(** One iteration of the pose loop of [step_render]. *)
Definition pose_iter (self : ObdlRender) (targetQ : list R)
    (acc : option (list RenderObject)) (i : nat) : option (list RenderObject) :=
  objs ← acc;
  o ← objs !! i;
  if (parent_joint o =? 0)%Z then Some objs
  else
    '(pos, qua) ← transform_pos self (model self) o targetQ;
    Some (<[i := assign_pose o pos qua]> objs).

Definition step_render (self : ObdlRender) (targetQ : list R) : option ObdlRender :=
  let self1 := mk_render (model self) (NL self) (render_objects self) rpy_zero
                 (rpys self) (j_rpys self) (counted self) (engine self) in
  self2 ← transform_rpy self1 (model self1) targetQ;
  objs ← foldl (pose_iter self2 targetQ) (Some (render_objects self2))
               (seq 0 (length (render_objects self2)));
  Some (mk_render (model self2) (NL self2) objs (rpy self2) (rpys self2)
          (j_rpys self2) (counted self2) (foldl move_obj (engine self2) objs)).

(** *** What the specification says, in its own words *)

(** The component of a row that an axis letter selects, replaced by the
    parent's component plus [qi] for x, y, z and minus [qi] for a, b, c. *)
Definition spec_axis (ax : string) (par : rpy3) (qi : R) : rpy3 :=
  if String.eqb ax "x" then set_roll par (roll par + qi)
  else if String.eqb ax "y" then set_pitch par (pitch par + qi)
  else if String.eqb ax "z" then set_yaw par (yaw par + qi)
  else if String.eqb ax "a" then set_roll par (roll par - qi)
  else if String.eqb ax "b" then set_pitch par (pitch par - qi)
  else if String.eqb ax "c" then set_yaw par (yaw par - qi)
  else par.

(** *** Vocabulary of the statements *)

(** The row iteration [i] of [transform_rpy] computes from the rows it
    reads. *)
Definition link_rpy (self_model m : model_dict) (q : list R) (i : nat)
    (rows : list rpy3) : option rpy3 :=
  p ← parent self_model !! i;
  _rpy ← py_get rows (p - 1);
  joint_rpy m q i rows (p - 1) _rpy.

(** The rows as iteration [i] finds them: the rows before [i] are final,
    the others are still the zeros of [np.zeros((NL, 3))]. *)
Definition rows_before (rows : list rpy3) (i : nat) : list rpy3 :=
  take i rows ++ replicate (length rows - i) rpy_zero.

(** What the pose loop of [step_render] does with one object. *)
Definition pose_obj (self : ObdlRender) (targetQ : list R) (o : RenderObject)
  : option RenderObject :=
  if (parent_joint o =? 0)%Z then Some o
  else
    '(pos, qua) ← transform_pos self (model self) o targetQ;
    Some (assign_pose o pos qua).

Definition pose_call (o : RenderObject) : engine_call :=
  (body_id o, position o, quat o).

(** The renderer at the entry of [transform_rpy] in [step_render]. *)
Definition rpy_cleared (self : ObdlRender) : ObdlRender :=
  mk_render (model self) (NL self) (render_objects self) rpy_zero
    (rpys self) (j_rpys self) (counted self) (engine self).

(** Inputs on which no index of [transform_rpy] is out of range: the model
    lists and [q] cover the [NL] links and every [parent[i] - 1] is an
    index of an array with [NL] rows. *)
Definition rpy_ok (sm m : model_dict) (q : list R) (n : nat) : Prop :=
  (n <= length (parent sm))%nat /\ (n <= length (jtype m))%nat /\
  (n <= length (jaxis m))%nat /\ (n <= length q)%nat /\
  Forall (fun p => (- Z.of_nat n <= p - 1 < Z.of_nat n)%Z) (take n (parent sm)).

(** Inputs on which [step_render] raises nowhere. *)
Definition render_ok (self : ObdlRender) (q : list R) : Prop :=
  rpy_ok (model self) (model self) q (NL self) /\
  Forall (fun o => parent_joint o <> 0%Z ->
                   (- Z.of_nat (NL self) <= parent_joint o < Z.of_nat (NL self))%Z)
         (render_objects self).

End Renderer.

Arguments mk_model {kin}.
Arguments parent {kin} m.
Arguments jtype {kin} m.
Arguments jaxis {kin} m.
Arguments kinematics {kin} m.
Arguments mk_render {kin}.
Arguments model {kin} o.
Arguments NL {kin} o.
Arguments render_objects {kin} o.
Arguments rpy {kin} o.
Arguments rpys {kin} o.
Arguments j_rpys {kin} o.
Arguments counted {kin} o.
Arguments engine {kin} o.
Arguments joint_rpy {kin}.
Arguments rpy_iter {kin}.
Arguments set_rpys {kin}.
Arguments transform_rpy {kin}.
Arguments transform_pos {kin}.
Arguments pose_iter {kin}.
Arguments step_render {kin}.
Arguments link_rpy {kin}.
Arguments pose_obj {kin}.
Arguments rpy_cleared {kin}.
Arguments rpy_ok {kin}.
Arguments render_ok {kin}.

(** *** A two-link arm for the concrete instances *)

(** Stand-ins for the two library functions: the position is the point
    shifted by the body index, the quaternion lists the angles. *)
Definition demo_calc (m : model_dict unit) (q : list R) (body : Z) (p : ndarray)
  : ndarray :=
  mk_ndarray [length (data p); 1%nat] ((fun x => x + IZR body) <$> data p).

Definition demo_quat (r : rpy3) : list R := [roll r; pitch r; yaw r; 1].

(** Two links, both attached to the root ([parent] 0), each turning about
    z. *)
Definition demo_model : model_dict unit :=
  mk_model [0%Z; 0%Z] [0%Z; 0%Z] ["z"%string; "z"%string] tt.

(** A chain: link 1 hangs on link 0. *)
Definition chain_model : model_dict unit :=
  mk_model [0%Z; 1%Z] [0%Z; 0%Z] ["z"%string; "x"%string] tt.

Definition demo_obj (pj : Z) : RenderObject :=
  mk_obj "box" (mk_ndarray [3%nat] [0; 0; 0]) pj pj 7 [0; 1; 1; 1]
    (mk_ndarray [3%nat] [0; 0; 0]) (mk_ndarray [4%nat] [0; 0; 0; 1]) "link".

Definition demo_render (m : model_dict unit) : ObdlRender unit :=
  mk_render m 2 [demo_obj 0; demo_obj 1] rpy_zero
    (replicate 2 rpy_zero) (replicate 2 rpy_zero) (replicate 2 0) [].

End Render.

(** * More of the agent: the critic, runs of [feed], vocabulary *)

Module AgentExt.
Import Agent.

Section NetworksExt.
Context {arr : Type} `{ArrayLib arr}.

(** The activations [policy] holds after its loop over the layers [ps]. *)
Definition hidden (s : arr) (ps : list (arr * arr)) : arr :=
  foldl (fun activations '(w, b) => relu (add (dot activations w) b)) s ps.

End NetworksExt.

(** [jnp.tanh]. *)
Definition nd_tanh (a : ndarray) : ndarray :=
  mk_ndarray (shape a) (tanh <$> data a).

(** [a[0]]: the first slice along the first axis; [IndexError] for an array
    without axes or with an empty first axis. *)
Definition nd_get0 (a : ndarray) : option ndarray :=
  match shape a with
  | [] => None
  | d :: rest =>
      if (0 <? d)%nat then Some (mk_ndarray rest (take (size_of rest) (data a)))
      else None
  end.

(** [value(state, params)]: the critic network, tanh after every layer but
    the last, and entry 0 of the output. *)
Definition value (state : ndarray) (params : list (ndarray * ndarray))
  : option ndarray :=
  let activations :=
    foldl (fun activations '(w, b) => nd_tanh (nd_add (nd_dot activations w) b))
          state (removelast params) in
  '(final_w, final_b) ← last params;
  let logits := nd_add (nd_dot activations final_w) final_b in
  nd_get0 logits.

(** The layers [ps] take a vector of [m] entries to one of [out] entries:
    each weight has shape (m, n) for the width [m] before it and each bias
    shape (n,). *)
Fixpoint fits (m : nat) (ps : list (ndarray * ndarray)) (out : nat) : Prop :=
  match ps with
  | [] => m = out
  | (w, b) :: rest =>
      exists n, shape w = [m; n] /\ nd_wf w /\ shape b = [n] /\ nd_wf b /\
                fits n rest out
  end.

(** The layer dimensions [dims] chain from [m] to [out]. *)
Fixpoint dims_chain (m : nat) (dims : list (nat * nat)) (out : nat) : Prop :=
  match dims with
  | [] => m = out
  | (m', n) :: rest => m' = m /\ dims_chain n rest out
  end.

Definition is_vector (a : ndarray) (n : nat) : Prop :=
  shape a = [n] /\ length (data a) = n.

(** [a[i][j]] for a two-dimensional array and indices inside it. *)
Definition entry2 (a : ndarray) (i j : nat) : option R :=
  match shape a with
  | [m; n] =>
      if (i <? m)%nat && (j <? n)%nat then data a !! (i * n + j)%nat else None
  | _ => None
  end.

Definition all_zero (x : ndarray) : Prop := Forall (fun v => v = 0) (data x).

(** [feed(r)] for each reward of [rs] in turn; an exception ends the run. *)
Definition feeds {key : Type} (a : agent ndarray key) (rs : list R)
  : option (agent ndarray key) :=
  foldl (fun acc r => a' ← acc; feed a' r) (Some a) rs.

(** *** Concrete instances *)

(** A probability vector. *)
Definition half_half : ndarray := mk_ndarray [2%nat] [0.5; 0.5].

End AgentExt.

(** * More of the renderer: the parent ids of [get_objects], vocabulary *)

Module RenderExt.
Import Render.

(** The attributes of a render object that [assign_pose] does not touch. *)
Definition same_identity (o o' : RenderObject) : Prop :=
  obj_type o' = obj_type o /\ origin o' = origin o /\
  parent_joint o' = parent_joint o /\ link_id o' = link_id o /\
  body_id o' = body_id o /\ rgba o' = rgba o /\ link_name o' = link_name o.

(** A serial chain of revolute joints about z: link [i] hangs on link
    [i - 1] ([parent[i] = i], the first link on the root), on every one of
    the [n] links. *)
Definition serial_z {kin} (sm m : model_dict kin) (n : nat) : Prop :=
  forall i : nat, (i < n)%nat ->
    parent sm !! i = Some (Z.of_nat i) /\ jtype m !! i = Some 0%Z /\
    jaxis m !! i = Some "z"%string.

(** A joint of the URDF: its name and the names of the links it joins. *)
Record joint : Type := mk_joint {
  joint_name : string; joint_parent : string; joint_child : string
}.

(** [d = dict(); for i in range(len(names)): d[names[i]] = i], the loop
    that builds [joint_orders] and [name_dict]: a later index replaces an
    earlier one under the same name. *)
Definition index_dict (names : list string) : gmap string nat :=
  foldl (fun d '(i, n) => <[n := i]> d) ∅ (zip (seq 0 (length names)) names).

(** One iteration of the loop over the joints: [name_dict[_p]],
    [name_dict[_c]] and [joint_orders[_jname]] raise [KeyError] for a
    missing name. The index [_ci] comes from [name_dict] and is therefore
    inside [parents]. *)
Definition set_parent (joint_orders name_dict : gmap string nat)
    (acc : option (list nat)) (j : joint) : option (list nat) :=
  parents ← acc;
  _pi ← name_dict !! joint_parent j;
  _ci ← name_dict !! joint_child j;
  k ← joint_orders !! joint_name j;
  Some (<[_ci := k]> parents).

(** The list [parents] of [get_objects], from [model['jname']], the names
    of [robot.links] and [robot.joints]. *)
Definition get_parents (jname links : list string) (joints : list joint)
  : option (list nat) :=
  foldl (set_parent (index_dict jname) (index_dict links))
        (Some (replicate (length links) O)) joints.

(** The names of joint [j] are those of two links and of a joint of the
    model. *)
Definition known (jname links : list string) (j : joint) : Prop :=
  joint_parent j ∈ links /\ joint_child j ∈ links /\ joint_name j ∈ jname.

(** *** Concrete instances *)

(** Three links in a row, each turning about z. *)
Definition z_chain : model_dict unit :=
  mk_model [0%Z; 1%Z; 2%Z] [0%Z; 0%Z; 0%Z]
    ["z"%string; "z"%string; "z"%string] tt.

Definition z_render : ObdlRender unit :=
  mk_render z_chain 3 [] rpy_zero
    (replicate 3 rpy_zero) (replicate 3 rpy_zero) (replicate 3 0) [].

(** A renderer that counts three links over the two-link [chain_model]. *)
Definition long_render : ObdlRender unit :=
  mk_render chain_model 3 [] rpy_zero
    (replicate 3 rpy_zero) (replicate 3 rpy_zero) (replicate 3 0) [].

(** The chain after [step_render] with the angles [q]; the renderer itself
    where [step_render] raises. *)
Definition chain_posed (q : list R) : ObdlRender unit :=
  default (demo_render chain_model)
          (step_render demo_calc demo_quat (demo_render chain_model) q).

(** A robot of three links and two joints. *)
Definition arm_links : list string := ["base"; "upper"; "lower"]%string.
Definition arm_jname : list string := ["shoulder"; "elbow"]%string.
Definition arm_joints : list joint :=
  [mk_joint "shoulder" "base" "upper"; mk_joint "elbow" "upper" "lower"].

End RenderExt.

(** * Properties of the agent *)

Module AgentSpec.
Import Agent.

Lemma py_min_Rmin (a b : R) : py_min a b = Rmin a b.
Proof.
  unfold py_min, Rmin.
  destruct (Rlt_dec b a), (Rle_dec a b); lra.
Qed.

Section UpdateAnyLibrary.
Context {arr : Type} `{ArrayLib arr}.

Lemma total_norm_sqr_from (acc : R) (grads : list (arr * arr)) :
  foldl (fun total '(dw, db) => total + norm dw ^ 2 + norm db ^ 2) acc grads
  = acc + sum_norm_sqr grads.
Proof.
  revert acc. induction grads as [|[dw db] grads IH]; intros acc; simpl.
  - lra.
  - rewrite IH. lra.
Qed.

Lemma total_norm_sqr_sum (grads : list (arr * arr)) :
  total_norm_sqr grads = sum_norm_sqr grads.
Proof. unfold total_norm_sqr. rewrite total_norm_sqr_from. lra. Qed.

Lemma sum_norm_sqr_nonneg (grads : list (arr * arr)) : 0 <= sum_norm_sqr grads.
Proof.
  induction grads as [|[dw db] grads IH]; simpl; [lra|].
  pose proof (pow2_ge_0 (norm dw)). pose proof (pow2_ge_0 (norm db)). lra.
Qed.

Lemma clip_scale_spec (grads : list (arr * arr)) :
  clip_scale grads = spec_scale grads.
Proof.
  unfold clip_scale, spec_scale, gradient_clip.
  rewrite py_min_Rmin, total_norm_sqr_sum.
  replace 1.0 with 1 by lra. reflexivity.
Qed.

Lemma update_length (grads params : list (arr * arr)) (lr : R) :
  length (update grads params lr) = Nat.min (length params) (length grads).
Proof. unfold update. apply length_zip_with. Qed.

Lemma update_lookup (grads params : list (arr * arr)) (lr : R) (i : nat) w b dw db :
  params !! i = Some (w, b) ->
  grads !! i = Some (dw, db) ->
  update grads params lr !! i
  = Some (sub w (scal (lr * clip_scale grads) dw),
          sub b (scal (lr * clip_scale grads) db)).
Proof.
  intros Hp Hg. unfold update. cbv zeta.
  rewrite lookup_zip_with, Hp. simpl. rewrite Hg. reflexivity.
Qed.

(** C1: for gradient and parameter lists of one length, [update] returns a
    list of that length whose i-th entry is
    (w_i - lr*scale*dw_i, b_i - lr*scale*db_i), with
    scale = min(1.0, 0.2 / (sqrt(T) + 1e-4)) and T the sum over all pairs of
    ||dw||^2 + ||db||^2. *)
Theorem update_entries (grads params : list (arr * arr)) (lr : R) :
  length grads = length params ->
  length (update grads params lr) = length params /\
  forall (i : nat) w b dw db,
    params !! i = Some (w, b) ->
    grads !! i = Some (dw, db) ->
    update grads params lr !! i
    = Some (sub w (scal (lr * spec_scale grads) dw),
            sub b (scal (lr * spec_scale grads) db)).
Proof.
  intros Hlen. split.
  - rewrite update_length. lia.
  - intros i w b dw db Hp Hg.
    rewrite <- clip_scale_spec. by apply update_lookup.
Qed.

Lemma policy_feed_forward (ps : list (arr * arr)) (s : arr) :
  policy s ps = feed_forward s ps.
Proof.
  revert s. induction ps as [|[w b] rest IH]; intros s; [reflexivity|].
  destruct rest as [|l rest']; [reflexivity|].
  change (feed_forward s ((w, b) :: l :: rest'))
    with (feed_forward (relu (affine s w b)) (l :: rest')).
  rewrite <- IH. unfold policy. rewrite last_cons_cons. reflexivity.
Qed.

(** C4: [policy] is the feed-forward composition of the affine layers
    [activations @ w + b] with ReLU after every layer except the last, and
    returns the last affine output as it is; [__call__] returns exactly
    what [policy] returns (and raises when [policy] does). *)
Theorem call_is_policy {key : Type} (a : agent arr key) (s : arr)
    (ps : list (arr * arr)) :
  policy s ps = feed_forward s ps /\
  snd (call a s ps) = PyArr <$> policy s ps.
Proof.
  split; [apply policy_feed_forward|].
  unfold call. destruct (policy s ps); reflexivity.
Qed.

Lemma spec_scale_pos (grads : list (arr * arr)) : 0 < spec_scale grads <= 1.
Proof.
  unfold spec_scale.
  pose proof (sqrt_pos (sum_norm_sqr grads)) as Hs.
  assert (0 < 0.2 / (sqrt (sum_norm_sqr grads) + 1e-4)) as Hq
    by (apply Rdiv_lt_0_compat; lra).
  split; [apply Rmin_glb_lt; lra | apply Rmin_l].
Qed.

(** The clipped gradient is shorter than the threshold. *)
Lemma scaled_norm_lt (grads : list (arr * arr)) :
  spec_scale grads * sqrt (sum_norm_sqr grads) < 0.2.
Proof.
  pose proof (sqrt_pos (sum_norm_sqr grads)) as Hs.
  pose proof (spec_scale_pos grads) as [Hpos _].
  set (s := sqrt (sum_norm_sqr grads)) in *.
  assert (spec_scale grads <= 0.2 / (s + 1e-4)) as Hle by apply Rmin_r.
  set (x := 0.2 / (s + 1e-4)) in *.
  assert (x * (s + 1e-4) = 0.2) as Hx by (unfold x; field; lra).
  assert (0 < x) as Hx0 by lra.
  nra.
Qed.

End UpdateAnyLibrary.

(** ** [update] on arrays *)

Section UpdateOnArrays.

Lemma sum_sq_cons (x : R) (l : list R) : sum_sq (x :: l) = x * x + sum_sq l.
Proof. reflexivity. Qed.

Lemma sum_sq_nonneg (l : list R) : 0 <= sum_sq l.
Proof. induction l as [|x l IH]; [simpl; lra | rewrite sum_sq_cons; nra]. Qed.

Lemma nd_norm_sqr (a : ndarray) : nd_norm a ^ 2 = sum_sq (data a).
Proof. unfold nd_norm. apply pow2_sqrt, sum_sq_nonneg. Qed.

Lemma sum_sq_scal (c : R) (l : list R) :
  sum_sq (Rmult c <$> l) = c ^ 2 * sum_sq l.
Proof.
  induction l as [|x l IH]; [simpl; lra|].
  rewrite fmap_cons, !sum_sq_cons, IH. ring.
Qed.

Lemma sum_sq_zero (l : list R) : Forall (fun x => x = 0) l -> sum_sq l = 0.
Proof.
  induction 1 as [|x l -> _ IH]; [reflexivity|].
  rewrite sum_sq_cons, IH. ring.
Qed.

Lemma sub_scaled_zero (c : R) (w z : list R) :
  length w = length z -> Forall (fun x => x = 0) z ->
  zip_with Rminus w (Rmult c <$> z) = w.
Proof.
  intros Hlen Hz. revert w Hlen.
  induction Hz as [|y z -> _ IH]; intros [|x w] Hlen; simpl in *;
    try discriminate; [reflexivity|].
  f_equal; [ring | apply IH; lia].
Qed.

Lemma update_step (grads params : list (ndarray * ndarray)) (lr : R) :
  update grads params lr = zip_with (step (lr * clip_scale grads)) params grads.
Proof.
  unfold update. cbv zeta. apply zip_with_ext; [|reflexivity..].
  intros [w b] [dw db]. reflexivity.
Qed.

Lemma update_minus_steps (grads params : list (ndarray * ndarray)) (lr : R) :
  update grads params lr = minus_steps params (update_steps grads lr).
Proof.
  unfold update, minus_steps, update_steps. cbv zeta.
  rewrite zip_with_fmap_r. apply zip_with_ext; [|reflexivity..].
  intros [w b] [dw db]. reflexivity.
Qed.

Lemma scaled_norm_sqr (c : R) (a : ndarray) :
  nd_norm (nd_scal c a) ^ 2 = c ^ 2 * nd_norm a ^ 2.
Proof. rewrite !nd_norm_sqr. apply sum_sq_scal. Qed.

Lemma steps_norm_sqr (grads : list (ndarray * ndarray)) (lr : R) :
  sum_norm_sqr (update_steps grads lr)
  = (lr * clip_scale grads) ^ 2 * sum_norm_sqr grads.
Proof.
  unfold update_steps. cbv zeta. generalize (lr * clip_scale grads). intros c.
  induction grads as [|[dw db] grads IH]; [simpl; lra|].
  rewrite fmap_cons.
  change (nd_norm (nd_scal c dw) ^ 2 + nd_norm (nd_scal c db) ^ 2
          + sum_norm_sqr ((fun '(dw, db) => (scal c dw, scal c db)) <$> grads)
          = c ^ 2 * (nd_norm dw ^ 2 + nd_norm db ^ 2 + sum_norm_sqr grads)).
  rewrite IH, !scaled_norm_sqr. ring.
Qed.

(** For a learning rate that is not negative, the terms [update] subtracts
    have total norm lr * scale * sqrt(T). *)
Lemma steps_norm (grads : list (ndarray * ndarray)) (lr : R) :
  0 <= lr ->
  sqrt (sum_norm_sqr (update_steps grads lr))
  = lr * (clip_scale grads * sqrt (sum_norm_sqr grads)).
Proof.
  intros Hlr. rewrite steps_norm_sqr.
  rewrite sqrt_mult by (first [apply pow2_ge_0 | apply sum_norm_sqr_nonneg]).
  rewrite sqrt_pow2; [ring|].
  rewrite clip_scale_spec. pose proof (spec_scale_pos grads). nra.
Qed.

Lemma sum_norm_sqr_zero (grads : list (ndarray * ndarray)) :
  zero_grads grads -> sum_norm_sqr grads = 0.
Proof.
  induction 1 as [|[dw db] grads [Hw Hb] _ IH]; [reflexivity|].
  simpl in Hw, Hb.
  change (nd_norm dw ^ 2 + nd_norm db ^ 2 + sum_norm_sqr grads = 0).
  rewrite !nd_norm_sqr, IH, !sum_sq_zero by assumption. lra.
Qed.

Lemma step_zero (c : R) (params grads : list (ndarray * ndarray)) :
  zero_grads grads -> (length params <= length grads)%nat ->
  shapes_match params grads ->
  zip_with (step c) params grads = params.
Proof.
  intros Hz. revert params.
  induction Hz as [|[dw db] grads [Hw Hb] _ IH]; intros [|[w b] params] Hlen Hm;
    simpl in *; try reflexivity; try lia.
  apply Forall_cons in Hm as [[[_ Lw] [_ Lb]] Hm]. simpl in Lw, Lb.
  f_equal; [|apply IH; [lia | exact Hm]].
  unfold nd_sub, nd_scal. simpl.
  rewrite !sub_scaled_zero by assumption.
  destruct w, b; reflexivity.
Qed.

(** C2, in exact arithmetic: [update] returns the parameters minus the
    terms lr * scale * dw and lr * scale * db; for a non-empty list of
    gradients with T > 0 and a positive learning rate these terms have
    total norm lr * (scale * sqrt(T)), the clipped norm scale * sqrt(T) is
    strictly below the threshold 0.2, and so the terms subtracted have
    total norm strictly below lr * 0.2. *)
Theorem clip_bound (grads : list (ndarray * ndarray)) (lr : R) :
  grads <> [] ->
  0 < sum_norm_sqr grads ->
  0 < lr ->
  (forall params,
     update grads params lr = minus_steps params (update_steps grads lr)) /\
  sqrt (sum_norm_sqr (update_steps grads lr))
  = lr * (clip_scale grads * sqrt (sum_norm_sqr grads)) /\
  clip_scale grads * sqrt (sum_norm_sqr grads) < 0.2 /\
  sqrt (sum_norm_sqr (update_steps grads lr)) < lr * 0.2.
Proof.
  intros _ _ Hlr.
  assert (clip_scale grads * sqrt (sum_norm_sqr grads) < 0.2) as Hlt
    by (rewrite clip_scale_spec; apply scaled_norm_lt).
  split; [intros params; apply update_minus_steps|].
  split; [apply steps_norm; lra|]. split; [exact Hlt|].
  rewrite steps_norm by lra. nra.
Qed.

(** C8, as the code has it: when every entry of every gradient is zero, the
    gradients are at least as many as the parameters and each has its
    parameter's shape, the clip scale is 1.0 and [update] returns the
    parameters unchanged, for every learning rate. *)
Theorem update_zero_grads (grads params : list (ndarray * ndarray)) (lr : R) :
  zero_grads grads ->
  (length params <= length grads)%nat ->
  shapes_match params grads ->
  clip_scale grads = 1 /\ update grads params lr = params.
Proof.
  intros Hz Hlen Hm. split.
  - rewrite clip_scale_spec. unfold spec_scale.
    rewrite sum_norm_sqr_zero, sqrt_0 by exact Hz.
    apply Rmin_left. lra.
  - rewrite update_step. by apply step_zero.
Qed.

End UpdateOnArrays.

(** *** Concrete instances *)

(** The hidden layer gives (1, -1), ReLU keeps (1, 0), and the output is
    1 * 2 + 0 * 5 + 1. *)
Example policy_demo :
  exists v, policy demo_state demo_net = Some (mk_ndarray [1%nat] [v]) /\ v = 3.
Proof.
  eexists. split.
  - unfold policy, demo_net, demo_state. cbn -[Rmax Rplus Rmult]. reflexivity.
  - rewrite Rmax_right by lra. rewrite Rmax_left by lra. lra.
Qed.

(** Gradients (3) and (4) have total norm 5: the scale is 0.2 / 5.0001. *)
Example clip_scale_demo :
  clip_scale [(mk_ndarray [1%nat] [3], mk_ndarray [1%nat] [4])] = 0.2 / 5.0001.
Proof.
  rewrite clip_scale_spec. unfold spec_scale.
  replace (sum_norm_sqr [(mk_ndarray [1%nat] [3], mk_ndarray [1%nat] [4])])
    with (5 * 5).
  - rewrite sqrt_square by lra. rewrite Rmin_right by lra. lra.
  - change (5 * 5 = nd_norm (mk_ndarray [1%nat] [3]) ^ 2
                    + nd_norm (mk_ndarray [1%nat] [4]) ^ 2 + 0).
    rewrite !nd_norm_sqr. simpl. lra.
Qed.

Lemma update_entries_witness :
  length [(arr_one, arr_zero)] = length [(arr_zero, arr_zero)] /\
  (length (update [(arr_one, arr_zero)] [(arr_zero, arr_zero)] 1)
   = length [(arr_zero, arr_zero)] /\
   forall (i : nat) w b dw db,
     [(arr_zero, arr_zero)] !! i = Some (w, b) ->
     [(arr_one, arr_zero)] !! i = Some (dw, db) ->
     update [(arr_one, arr_zero)] [(arr_zero, arr_zero)] 1 !! i
     = Some (sub w (scal (1 * spec_scale [(arr_one, arr_zero)]) dw),
             sub b (scal (1 * spec_scale [(arr_one, arr_zero)]) db))).
Proof.
  split; [reflexivity|].
  apply (update_entries [(arr_one, arr_zero)] [(arr_zero, arr_zero)] 1).
  reflexivity.
Defined.

Lemma sum_norm_sqr_steep : sum_norm_sqr steep_grads = 25.
Proof.
  change (nd_norm (mk_ndarray [1%nat] [3]) ^ 2
          + nd_norm (mk_ndarray [1%nat] [4]) ^ 2 + 0 = 25).
  rewrite !nd_norm_sqr. simpl. lra.
Qed.

Lemma clip_bound_witness :
  steep_grads <> [] /\
  0 < sum_norm_sqr steep_grads /\
  0 < 0.5 /\
  ((forall params,
      update steep_grads params 0.5
      = minus_steps params (update_steps steep_grads 0.5)) /\
   sqrt (sum_norm_sqr (update_steps steep_grads 0.5))
   = 0.5 * (clip_scale steep_grads * sqrt (sum_norm_sqr steep_grads)) /\
   clip_scale steep_grads * sqrt (sum_norm_sqr steep_grads) < 0.2 /\
   sqrt (sum_norm_sqr (update_steps steep_grads 0.5)) < 0.5 * 0.2).
Proof.
  assert (steep_grads <> []) as H1 by discriminate.
  assert (0 < sum_norm_sqr steep_grads) as H2
    by (rewrite sum_norm_sqr_steep; lra).
  assert (0 < 0.5) as H3 by lra.
  split; [exact H1|]. split; [exact H2|]. split; [exact H3|].
  exact (clip_bound steep_grads 0.5 H1 H2 H3).
Defined.

(** On float64 arrays the strict bounds are not met.  For the gradient
    (2^40) the sum T = 2^80 is positive, sqrt(T) + 1e-4 rounds to 2^40 and
    scale * sqrt(T) is the float 0.2 itself, not below it.  For the weight
    2^50, the gradient (10^6) and lr = 1, [update] returns 2^50 - 0.25,
    the float nearest to 2^50 - 0.19999999998: the parameter changes by
    0.25, which is not below lr * 0.2.  And in exact arithmetic a learning
    rate of 0 subtracts terms of norm 0, which is not below 0 * 0.2. *)
Lemma clip_bound_fails_in_binary64 :
  (Binary64.huge_grads <> [] /\
   Binary64.lt Binary64.zero (Binary64.total_norm_sqr Binary64.huge_grads)
   = true /\
   Binary64.scaled_norm Binary64.huge_grads = Binary64.gradient_clip /\
   Binary64.lt (Binary64.scaled_norm Binary64.huge_grads) Binary64.gradient_clip
   = false) /\
  (Binary64.large_grads <> [] /\
   Binary64.lt Binary64.zero (Binary64.total_norm_sqr Binary64.large_grads)
   = true /\
   Binary64.update Binary64.large_grads Binary64.large_params Binary64.one
   = Binary64.moved_params /\
   Binary64.lt
     (Binary64.change_norm Binary64.large_params
        (Binary64.update Binary64.large_grads Binary64.large_params Binary64.one))
     (Binary64.times Binary64.one Binary64.gradient_clip)
   = false) /\
  (steep_grads <> [] /\
   0 < sum_norm_sqr steep_grads /\
   ~ sqrt (sum_norm_sqr (update_steps steep_grads 0)) < 0 * 0.2).
Proof.
  split; [|split].
  - split; [discriminate|]. by vm_compute.
  - split; [discriminate|]. by vm_compute.
  - split; [discriminate|]. split; [rewrite sum_norm_sqr_steep; lra|].
    pose proof (sqrt_pos (sum_norm_sqr (update_steps steep_grads 0))). lra.
Qed.

Lemma update_zero_grads_witness :
  zero_grads [(arr_zero, arr_zero)] /\
  (length [(arr_one, arr_one)] <= length [(arr_zero, arr_zero)])%nat /\
  shapes_match [(arr_one, arr_one)] [(arr_zero, arr_zero)] /\
  (clip_scale [(arr_zero, arr_zero)] = 1 /\
   update [(arr_zero, arr_zero)] [(arr_one, arr_one)] 0.001 = [(arr_one, arr_one)]).
Proof.
  assert (zero_grads [(arr_zero, arr_zero)]) as H1 by (repeat constructor).
  assert (length [(arr_one, arr_one)] <= length [(arr_zero, arr_zero)])%nat
    as H2 by (simpl; lia).
  assert (shapes_match [(arr_one, arr_one)] [(arr_zero, arr_zero)]) as H3
    by (repeat constructor).
  repeat split; try assumption;
    apply (update_zero_grads [(arr_zero, arr_zero)] [(arr_one, arr_one)] 0.001
             H1 H2 H3).
Defined.

(** With no gradient pair every gradient entry is zero, and [zip] leaves no
    parameter. *)
Lemma update_zero_grads_needs_pairs :
  zero_grads [] /\
  update [] [(arr_one, arr_one)] 0.001 <> [(arr_one, arr_one)].
Proof. split; [constructor | discriminate]. Qed.

(** ** [reset] *)

Section ResetFacts.
Context {key : Type}.
Variable generate_key : key -> key * key.
Variable uniform_stream : key -> nat -> R.
Variable randn_stream : nat -> R.

Lemma draws_cons (m n : nat) (dims : list (nat * nat)) :
  draws ((m, n) :: dims) = (size_of [m; n] + size_of [n] + draws dims)%nat.
Proof. reflexivity. Qed.

Lemma init_layers_shapes (scale : R) (dims : list (nat * nat)) (rng : nat) :
  layer_shapes <$> fst (init_layers randn_stream scale dims rng)
  = (fun mn => ([fst mn; snd mn], [snd mn])) <$> dims.
Proof.
  revert rng. induction dims as [|[m n] dims IH]; intros rng; [reflexivity|].
  cbn [init_layers init_layer randn].
  specialize (IH (rng + size_of [m; n] + size_of [n])%nat).
  destruct (init_layers randn_stream scale dims _) as [ls rng2] eqn:E.
  cbn [fst] in *. rewrite fmap_cons, IH. reflexivity.
Qed.

(** The layers hold the draws [rng], [rng + 1], ... in order, and the
    generator ends after the last of them. *)
Lemma init_layers_entries (scale : R) (dims : list (nat * nat)) (rng : nat) :
  entries (fst (init_layers randn_stream scale dims rng))
  = (fun i => scale * randn_stream i) <$> seq rng (draws dims) /\
  snd (init_layers randn_stream scale dims rng) = (rng + draws dims)%nat.
Proof.
  revert rng. induction dims as [|[m n] dims IH]; intros rng.
  - split; [reflexivity | simpl; lia].
  - cbn [init_layers init_layer randn].
    specialize (IH (rng + size_of [m; n] + size_of [n])%nat).
    destruct (init_layers randn_stream scale dims _) as [ls rng2] eqn:E.
    cbn [fst snd] in *. destruct IH as [IH1 IH2]. split.
    + unfold entries in *. rewrite fmap_cons. cbn [concat fst snd nd_scal data].
      rewrite IH1, draws_cons.
      rewrite !seq_app, !fmap_app, <- !list_fmap_compose, <- !app_assoc.
      rewrite Nat.add_assoc. reflexivity.
    + rewrite IH2, draws_cons. lia.
Qed.

Lemma reset_params (a : agent ndarray key) :
  params (fst (reset key generate_key uniform_stream randn_stream a))
  = fst (init_random_params randn_stream 0.1
           [env_state_size a; 128; 128; length (action_space a)]%nat 0) /\
  value_params (fst (reset key generate_key uniform_stream randn_stream a))
  = fst (init_random_params randn_stream 0.1 [env_state_size a; 128; 128; 1]%nat
           (snd (init_random_params randn_stream 0.1
                   [env_state_size a; 128; 128; length (action_space a)]%nat 0))).
Proof.
  unfold reset.
  destruct (init_random_params randn_stream 0.1
              [env_state_size a; 128; 128; length (action_space a)]%nat 0)
    as [ps rng1].
  cbn [fst snd].
  destruct (init_random_params randn_stream 0.1
              [env_state_size a; 128; 128; 1]%nat rng1) as [vps rng2].
  destruct (generate_key (random a)) as [k1 k2].
  destruct (action_space a); split; reflexivity.
Qed.

(** Every array [init_layers] builds holds as many entries as its shape
    says. *)
Lemma init_layers_wf (scale : R) (dims : list (nat * nat)) (rng : nat) :
  Forall (fun l => nd_wf (fst l) /\ nd_wf (snd l))
         (fst (init_layers randn_stream scale dims rng)).
Proof.
  revert rng. induction dims as [|[m n] dims IH]; intros rng; [constructor|].
  cbn [init_layers init_layer randn].
  specialize (IH (rng + size_of [m; n] + size_of [n])%nat).
  destruct (init_layers randn_stream scale dims _) as [ls rng2].
  cbn [fst] in *. constructor; [|exact IH].
  unfold nd_wf, nd_scal. cbn [fst snd shape data].
  by rewrite !length_fmap, !length_seq.
Qed.

(** C3: after [reset] (also when it raises at [self.action_space[0]]) the
    actor [params] is three (weight, bias) pairs of shapes
    (env_state_size, 128), (128, 128), (128, len(action_space)) with biases
    (128,), (128,), (len(action_space),), the critic [value_params] is three
    pairs of shapes (env_state_size, 128), (128, 128), (128, 1) with biases
    (128,), (128,), (1,), every array holds as many entries as its shape
    says, and the two are distinct networks: the entries of the actor are
    0.1 times the first S*128 + 128 + 128*128 + 128 + 128*A + A draws of
    the generator, in order, and the entries of the critic are 0.1 times
    the S*128 + 128 + 128*128 + 128 + 128 + 1 draws that follow them. *)
Theorem reset_networks (a : agent ndarray key) :
  let a' := fst (reset key generate_key uniform_stream randn_stream a) in
  let S := env_state_size a in
  let A := length (action_space a) in
  let nA := (S * 128 + 128 + (128 * 128 + 128) + (128 * A + A))%nat in
  let nC := (S * 128 + 128 + (128 * 128 + 128) + (128 * 1 + 1))%nat in
  layer_shapes <$> params a'
  = [([S; 128], [128]); ([128; 128], [128]); ([128; A], [A])]%nat /\
  layer_shapes <$> value_params a'
  = [([S; 128], [128]); ([128; 128], [128]); ([128; 1], [1])]%nat /\
  Forall (fun l => nd_wf (fst l) /\ nd_wf (snd l)) (params a') /\
  Forall (fun l => nd_wf (fst l) /\ nd_wf (snd l)) (value_params a') /\
  entries (params a') = (fun i => 0.1 * randn_stream i) <$> seq 0 nA /\
  entries (value_params a') = (fun i => 0.1 * randn_stream i) <$> seq nA nC.
Proof.
  intros a' S A nA nC. subst a'.
  destruct (reset_params a) as [-> ->].
  unfold init_random_params.
  set (d1 := zip (removelast [env_state_size a; 128; 128;
                              length (action_space a)]%nat) _).
  set (d2 := zip (removelast [env_state_size a; 128; 128; 1]%nat) _).
  destruct (init_layers_entries 0.1 d1 0) as [E1 E2].
  destruct (init_layers_entries 0.1 d2 (0 + draws d1)) as [E3 _].
  assert (draws d1 = nA) as H1.
  { subst d1 nA S A. unfold draws, size_of.
    cbn [removelast tail zip zip_with foldr fst snd]. lia. }
  assert (draws d2 = nC) as H2.
  { subst d2 nC S. unfold draws, size_of.
    cbn [removelast tail zip zip_with foldr fst snd]. lia. }
  split; [apply init_layers_shapes|]. split; [apply init_layers_shapes|].
  split; [apply init_layers_wf|]. split; [apply init_layers_wf|].
  split.
  - by rewrite E1, H1.
  - by rewrite E2, E3, H1, H2.
Qed.

(** [reset] establishes the invariant [feed] relies on whenever the action
    space is not empty. *)
Lemma reset_inv (a : agent ndarray key) :
  action_space a <> [] ->
  agent_inv (fst (reset key generate_key uniform_stream randn_stream a)).
Proof.
  intros Hne. unfold reset.
  destruct (init_random_params randn_stream 0.1 _ 0) as [ps rng1].
  destruct (init_random_params randn_stream 0.1 _ rng1) as [vps rng2].
  destruct (generate_key (random a)) as [k1 k2].
  destruct (action_space a) as [|a0 rest]; [done|].
  unfold agent_inv, nd_wf, nd_zeros. cbn [fst]. cbn -[size_of replicate seq].
  rewrite !length_replicate. repeat split; eauto.
  exists (env_state_size a), (S (length rest)).
  rewrite length_fmap, !length_replicate. cbn [size_of foldr].
  repeat split; lia.
Qed.

Lemma reset_counters (a : agent ndarray key) :
  current_episode_length (fst (reset key generate_key uniform_stream randn_stream a))
  = O /\
  max_episode_length (fst (reset key generate_key uniform_stream randn_stream a))
  = max_episode_length a.
Proof.
  unfold reset.
  destruct (init_random_params randn_stream 0.1 _ 0) as [ps rng1].
  destruct (init_random_params randn_stream 0.1 _ rng1) as [vps rng2].
  destruct (generate_key (random a)) as [k1 k2].
  destruct (action_space a); split; reflexivity.
Qed.

End ResetFacts.

(** ** Replacing a slice of a row-major list *)

Section Chunks.
Context {A : Type}.
Implicit Types (d v : list A) (k j sz : nat).

Lemma lookup_chunk d j sz t :
  take sz (drop (j * sz) d) !! t
  = if (t <? sz)%nat then d !! (j * sz + t)%nat else None.
Proof.
  destruct (Nat.ltb_spec t sz).
  - rewrite lookup_take_lt by lia. apply lookup_drop.
  - apply lookup_take_ge. lia.
Qed.

Lemma put_chunk_length d k sz v :
  length v = sz -> ((k + 1) * sz <= length d)%nat ->
  length (take (k * sz) d ++ v ++ drop ((k + 1) * sz) d) = length d.
Proof. intros. rewrite !length_app, length_take, length_drop. lia. Qed.

Lemma put_chunk_same d k sz v :
  length v = sz -> ((k + 1) * sz <= length d)%nat ->
  take sz (drop (k * sz) (take (k * sz) d ++ v ++ drop ((k + 1) * sz) d)) = v.
Proof.
  intros Hv Hd.
  rewrite drop_app_length' by (rewrite length_take; lia).
  rewrite take_app_length' by (symmetry; exact Hv). reflexivity.
Qed.

Lemma put_chunk_other d k j sz v :
  length v = sz -> ((k + 1) * sz <= length d)%nat -> j <> k ->
  take sz (drop (j * sz) (take (k * sz) d ++ v ++ drop ((k + 1) * sz) d))
  = take sz (drop (j * sz) d).
Proof.
  intros Hv Hd Hj. apply list_eq. intros t. rewrite !lookup_chunk.
  destruct (Nat.ltb_spec t sz) as [Ht|]; [|reflexivity].
  destruct (decide (j < k)%nat).
  - rewrite lookup_app_l by (rewrite length_take; nia).
    apply lookup_take_lt. nia.
  - rewrite lookup_app_r by (rewrite length_take; nia).
    rewrite lookup_app_r by (rewrite length_take; nia).
    rewrite lookup_drop, length_take. f_equal. nia.
Qed.

Lemma take_1_drop (l : list A) (j : nat) :
  take 1 (drop j l) = option_list (l !! j).
Proof.
  revert j. induction l as [|x l IH]; intros [|j]; try reflexivity.
  apply IH.
Qed.

Lemma option_list_inj (x y : option A) : option_list x = option_list y -> x = y.
Proof. destruct x, y; simpl; congruence. Qed.

Lemma length_concat_rows (ll : list (list A)) (n : nat) :
  Forall (fun l => length l = n) ll -> length (concat ll) = (length ll * n)%nat.
Proof.
  induction 1 as [|l ll Hl _ IH]; [reflexivity|].
  simpl. rewrite length_app, IH, Hl. reflexivity.
Qed.

End Chunks.

(** ** [feed] *)

Section FeedFacts.
Context {key : Type}.

Lemma jnp_pos_lt (n : nat) (i : Z) : (0 < n)%nat -> (jnp_pos n i < n)%nat.
Proof. unfold jnp_pos. intros. destruct (i <? 0)%Z; lia. Qed.

Lemma softmax_grad_length (s : ndarray) :
  length (data (softmax_grad s)) = (length (data s) * length (data s))%nat.
Proof.
  unfold softmax_grad. cbn [data].
  rewrite (length_concat_rows _ (length (data s))), length_imap; [reflexivity|].
  apply Forall_lookup. intros i row Hrow.
  rewrite list_lookup_imap in Hrow.
  destruct (data s !! i); simplify_eq/=. apply length_imap.
Qed.

Lemma softmax_row_length (s : ndarray) (i : Z) :
  length (nd_slice (softmax_grad s) (jnp_pos (length (data s)) i))
  = length (data s).
Proof.
  unfold nd_slice. rewrite length_take, length_drop, softmax_grad_length.
  cbn [softmax_grad shape tail size_of foldr].
  destruct (length (data s)) as [|n] eqn:E; [simpl; lia|].
  pose proof (jnp_pos_lt (S n) i). nia.
Qed.

Lemma put_slice_shape x d slot k vals :
  shape (put_slice x d slot k vals) = shape x.
Proof. unfold put_slice. destruct (k <? d)%nat; reflexivity. Qed.

Lemma slot_fits x d slot k :
  shape x = d :: slot -> nd_wf x -> (k < d)%nat ->
  ((k + 1) * size_of slot <= length (data x))%nat.
Proof.
  unfold nd_wf. intros Hs -> Hk. rewrite Hs. cbn [size_of foldr].
  fold (size_of slot). nia.
Qed.

Lemma put_slice_wf x d slot k vals :
  shape x = d :: slot -> nd_wf x -> length vals = size_of slot ->
  nd_wf (put_slice x d slot k vals).
Proof.
  intros Hs Hx Hv. unfold put_slice.
  destruct (Nat.ltb_spec k d); [|exact Hx].
  unfold nd_wf. cbn [data shape]. rewrite <- Hx.
  apply put_chunk_length; [exact Hv | by eapply slot_fits].
Qed.

Lemma put_slice_same x d slot k vals :
  shape x = d :: slot -> nd_wf x -> length vals = size_of slot -> (k < d)%nat ->
  nd_slice (put_slice x d slot k vals) k = vals.
Proof.
  intros Hs Hx Hv Hk. unfold nd_slice.
  rewrite put_slice_shape, Hs. cbn [tail]. unfold put_slice.
  destruct (Nat.ltb_spec k d); [|lia]. cbn [data].
  apply put_chunk_same; [exact Hv | by eapply slot_fits].
Qed.

Lemma put_slice_other x d slot k j vals :
  shape x = d :: slot -> nd_wf x -> length vals = size_of slot -> j <> k ->
  nd_slice (put_slice x d slot k vals) j = nd_slice x j.
Proof.
  intros Hs Hx Hv Hj. unfold nd_slice.
  rewrite put_slice_shape, Hs. cbn [tail]. unfold put_slice.
  destruct (Nat.ltb_spec k d); [|reflexivity]. cbn [data].
  apply put_chunk_other; [exact Hv | by eapply slot_fits | exact Hj].
Qed.

Lemma put_slice_dropped x d slot k vals :
  (d <= k)%nat -> put_slice x d slot k vals = x.
Proof.
  unfold put_slice. intros. destruct (Nat.ltb_spec k d); [lia|reflexivity].
Qed.

Lemma slice_1d (x : ndarray) (d j : nat) :
  shape x = [d] -> nd_slice x j = option_list (data x !! j).
Proof.
  intros Hs. unfold nd_slice. rewrite Hs. cbn [tail size_of foldr].
  rewrite Nat.mul_1_r. apply take_1_drop.
Qed.

(** Under the invariant the gradient is defined and has the shape of [W]. *)
Lemma feed_grad_ok (a : agent ndarray key) :
  agent_inv a ->
  exists grad, feed_grad a = Some grad /\
    shape grad = [nth 0 (shape (W a)) O; nth 1 (shape (W a)) O] /\
    length (data grad) = size_of (shape grad).
Proof.
  intros (_ & _ & _ & [i Hact] & s0 & s1 & HW & _ & Hst & Hp & Hpl).
  unfold feed_grad. rewrite Hact, Hp, HW. eexists. split; [reflexivity|].
  cbn [shape data nth].
  rewrite length_fmap, <- Hpl, softmax_row_length, Hst, Hpl.
  split; [reflexivity|].
  rewrite (length_concat_rows _ s1), length_fmap, Hst.
  - cbn [size_of foldr]. lia.
  - apply Forall_fmap, Forall_forall. intros x _. cbn.
    rewrite !length_fmap, <- Hpl. apply softmax_row_length.
Qed.

Lemma feed_eq (a : agent ndarray key) (reward : R) (grad : ndarray) :
  agent_inv a -> feed_grad a = Some grad ->
  shape grad = [nth 0 (shape (W a)) O; nth 1 (shape (W a)) O] ->
  feed a reward
  = Some (mk_agent (env_state_size a) (action_space a) (max_episode_length a)
            (lr a) (gamma a) (random a) (params a) (value_params a) (W a)
            (put_slice (episode_rewards a) (max_episode_length a) []
               (current_episode_length a) [reward])
            (put_slice (episode_grads a) (max_episode_length a)
               [nth 0 (shape (W a)) O; nth 1 (shape (W a)) O]
               (current_episode_length a) (data grad))
            (S (current_episode_length a)) (current_episode_reward a)
            (state a) (action a) (probs a)).
Proof.
  intros (Hr & _ & _ & _ & s0 & s1 & HW & Hg & _) Hgrad Hsg.
  unfold feed. rewrite Hgrad. cbn [mbind option_bind].
  unfold index_update. rewrite Hr, Hg, HW in *. cbn [nth] in *.
  cbn [broadcast_to shape data mbind option_bind size_of foldr replicate].
  unfold broadcast_to. rewrite Hsg.
  rewrite decide_True by reflexivity. reflexivity.
Qed.

(** [feed] keeps the invariant. *)
Lemma feed_inv (a a' : agent ndarray key) (reward : R) :
  agent_inv a -> feed a reward = Some a' ->
  agent_inv a' /\ max_episode_length a' = max_episode_length a.
Proof.
  intros Hinv Hfeed.
  destruct (feed_grad_ok a Hinv) as (grad & Hgrad & Hsg & Hlg).
  rewrite (feed_eq a reward grad Hinv Hgrad Hsg) in Hfeed.
  injection Hfeed as <-. split; [|reflexivity].
  destruct Hinv as (Hr & Hrw & Hgw & Hact & s0 & s1 & HW & Hg & Hrest).
  rewrite HW in *. cbn [nth] in *. rewrite Hsg in Hlg.
  unfold agent_inv.
  cbn [episode_rewards episode_grads max_episode_length action W state probs].
  rewrite !put_slice_shape.
  split; [exact Hr|]. split; [by apply put_slice_wf|].
  split; [by apply put_slice_wf|]. split; [exact Hact|].
  exists s0, s1. tauto.
Qed.

(** The gradient of [feed] always has two axes and as many entries as its
    shape says. *)
Lemma feed_grad_shape (a : agent ndarray key) (grad : ndarray) :
  feed_grad a = Some grad ->
  exists m n : nat, shape grad = [m; n] /\ length (data grad) = (m * n)%nat.
Proof.
  unfold feed_grad. intros Hg.
  destruct (action a) as [act|]; [|discriminate].
  destruct (shape (probs a)) as [|n [|]]; try discriminate.
  injection Hg as <-.
  match goal with
  | |- context [mk_ndarray [_; length ?d] _] => set (dlog := d)
  end.
  exists (length (data (state a))), (length dlog).
  split; [reflexivity|]. cbn [data].
  rewrite (length_concat_rows _ (length dlog)); [by rewrite length_fmap|].
  apply Forall_fmap, Forall_forall. intros x _. cbn. apply length_fmap.
Qed.

(** What a returning [feed] has computed, for buffers of their shapes. *)
Lemma feed_returned (a a' : agent ndarray key) (reward : R) :
  feed a reward = Some a' -> buffers_shaped a ->
  exists grad,
    feed_grad a = Some grad /\
    length (data grad)
    = size_of [nth 0 (shape (W a)) O; nth 1 (shape (W a)) O] /\
    a' = mk_agent (env_state_size a) (action_space a) (max_episode_length a)
           (lr a) (gamma a) (random a) (params a) (value_params a) (W a)
           (put_slice (episode_rewards a) (max_episode_length a) []
              (current_episode_length a) [reward])
           (put_slice (episode_grads a) (max_episode_length a)
              [nth 0 (shape (W a)) O; nth 1 (shape (W a)) O]
              (current_episode_length a) (data grad))
           (S (current_episode_length a)) (current_episode_reward a)
           (state a) (action a) (probs a).
Proof.
  intros Hfeed (Hr & _ & Hg & _). unfold feed in Hfeed.
  destruct (feed_grad a) as [grad|] eqn:Hgrad; [|discriminate].
  cbn [mbind option_bind] in Hfeed.
  destruct (feed_grad_shape a grad Hgrad) as (m & n & Hs & Hl).
  unfold index_update in Hfeed. rewrite Hr, Hg in Hfeed.
  cbn [broadcast_to shape data mbind option_bind size_of foldr replicate]
    in Hfeed.
  unfold broadcast_to in Hfeed. rewrite Hs in Hfeed.
  destruct (decide ([m; n] = [nth 0 (shape (W a)) O; nth 1 (shape (W a)) O]))
    as [E|]; [|discriminate].
  cbn [mbind option_bind] in Hfeed. injection Hfeed as <-.
  exists grad. split; [reflexivity|]. split; [|reflexivity].
  rewrite Hl, <- E. cbn [size_of foldr]. lia.
Qed.

(** C10, as the code has it: [feed(reward)] returns in the state [reset]
    and [feed] leave the agent in, while the counter k is below
    max_episode_length; and whenever it returns, with the two buffers of
    shapes (max_episode_length,) and
    (max_episode_length, W.shape[0], W.shape[1]) and the counter k before
    the call below max_episode_length, it increments
    [current_episode_length] by exactly one, keeps the two shapes, writes
    [reward] at index k of [episode_rewards] and the computed gradient at
    index k of [episode_grads], and leaves every entry at another index
    unchanged. *)
Theorem feed_frame (a : agent ndarray key) (reward : R) :
  (agent_inv a ->
   (current_episode_length a < max_episode_length a)%nat ->
   is_Some (feed a reward)) /\
  forall a', feed a reward = Some a' ->
    buffers_shaped a ->
    let k := current_episode_length a in
    let L := max_episode_length a in
    (k < L)%nat ->
    exists grad,
      feed_grad a = Some grad /\
      current_episode_length a' = S k /\
      shape (episode_rewards a') = [L] /\
      shape (episode_grads a')
      = [L; nth 0 (shape (W a)) O; nth 1 (shape (W a)) O] /\
      data (episode_rewards a') !! k = Some reward /\
      nd_slice (episode_grads a') k = data grad /\
      (forall j : nat, j <> k ->
       data (episode_rewards a') !! j = data (episode_rewards a) !! j /\
       nd_slice (episode_grads a') j = nd_slice (episode_grads a) j).
Proof.
  split.
  - intros Hinv _. destruct (feed_grad_ok a Hinv) as (grad & Hgrad & Hsg & _).
    rewrite (feed_eq a reward grad Hinv Hgrad Hsg). by eexists.
  - intros a' Hfeed Hshaped k L Hk.
    destruct (feed_returned a a' reward Hfeed Hshaped) as (grad & Hgrad & Hlg & ->).
    destruct Hshaped as (Hr & Hrw & Hg & Hgw).
    exists grad. split; [exact Hgrad|].
    cbn [current_episode_length episode_rewards episode_grads].
    rewrite !put_slice_shape. fold k L.
    split; [reflexivity|]. split; [exact Hr|]. split; [exact Hg|].
    split; [|split].
    + apply option_list_inj.
      rewrite <- !(slice_1d _ L) by (rewrite ?put_slice_shape; exact Hr).
      by apply put_slice_same.
    + by apply put_slice_same.
    + intros j Hj. split.
      * apply option_list_inj.
        rewrite <- !(slice_1d _ L) by (rewrite ?put_slice_shape; exact Hr).
        by apply put_slice_other.
      * by apply put_slice_other.
Qed.

(** Once [__call__] has stored the logits in [self.action], [feed]
    raises. *)
Lemma feed_after_call (a : agent ndarray key) (s logits : ndarray)
    (ps : list (ndarray * ndarray)) (reward : R) :
  policy s ps = Some logits ->
  action (fst (call a s ps)) = PyArr logits /\
  feed (fst (call a s ps)) reward = None.
Proof.
  intros Hp. unfold call. rewrite Hp. cbn [fst]. split; [reflexivity|].
  unfold feed, feed_grad. reflexivity.
Qed.

End FeedFacts.

Lemma ready_agent_inv : agent_inv ready_agent.
Proof. apply reset_inv. discriminate. Qed.

Lemma busy_agent_inv : agent_inv busy_agent.
Proof.
  unfold agent_inv, nd_wf. cbn. repeat (split; [reflexivity|]).
  split; [by exists 1%Z|]. exists 2%nat, 2%nat. by repeat split.
Qed.

Lemma busy_agent_shaped : buffers_shaped busy_agent.
Proof. unfold buffers_shaped, nd_wf. cbn. by repeat split. Qed.

(** [busy_agent], with the counter at 1 of 3, takes the reward 7. *)
Lemma feed_frame_witness :
  agent_inv busy_agent /\ buffers_shaped busy_agent /\
  (current_episode_length busy_agent < max_episode_length busy_agent)%nat /\
  exists a' grad,
    feed busy_agent 7 = Some a' /\
    feed_grad busy_agent = Some grad /\
    current_episode_length a' = 2%nat /\
    shape (episode_rewards a') = [3%nat] /\
    shape (episode_grads a') = [3; 2; 2]%nat /\
    data (episode_rewards a') !! 1%nat = Some 7 /\
    nd_slice (episode_grads a') 1 = data grad /\
    (forall j : nat, j <> 1%nat ->
     data (episode_rewards a') !! j = data (episode_rewards busy_agent) !! j /\
     nd_slice (episode_grads a') j = nd_slice (episode_grads busy_agent) j).
Proof.
  assert (current_episode_length busy_agent < max_episode_length busy_agent)%nat
    as Hk by (cbn; lia).
  split; [exact busy_agent_inv|]. split; [exact busy_agent_shaped|].
  split; [exact Hk|].
  destruct (proj1 (feed_frame busy_agent 7) busy_agent_inv Hk) as [a' Ha'].
  exists a'.
  destruct (proj2 (feed_frame busy_agent 7) a' Ha' busy_agent_shaped Hk)
    as (grad & Hgrad).
  exists grad. split; [exact Ha' | exact Hgrad].
Defined.

(** [feed] does not do this in every state.  After [__call__], which
    stores the array of logits in [self.action], [feed] raises.  And after
    [reset] with [max_episode_length = 1] and one [feed], the counter is 1;
    a second [feed(1)] returns, but index 1 of [episode_rewards] does not
    hold the reward: the buffer has the single index 0. *)
Lemma feed_raises_or_misses :
  (exists logits,
     policy demo_state demo_net = Some logits /\
     action (fst (call ready_agent demo_state demo_net)) = PyArr logits /\
     feed (fst (call ready_agent demo_state demo_net)) 1 = None) /\
  exists a1 a2,
    feed ready_agent 0 = Some a1 /\
    current_episode_length a1 = 1%nat /\
    max_episode_length a1 = 1%nat /\
    feed a1 1 = Some a2 /\
    data (episode_rewards a2) !! 1%nat <> Some 1.
Proof.
  split.
  { destruct policy_demo as (v & Hp & _). eexists. split; [exact Hp|].
    by apply feed_after_call. }
  pose proof ready_agent_inv as Hinv0.
  destruct (reset_counters (fun k : unit => (k, k)) (fun _ _ => 0.5) INR small_agent)
    as [Hk0 HL0].
  fold ready_agent in Hk0, HL0.
  change (max_episode_length small_agent) with 1%nat in HL0.
  destruct (feed_grad_ok ready_agent Hinv0) as (g1 & Hg1 & Hs1 & _).
  pose proof (feed_eq ready_agent 0 g1 Hinv0 Hg1 Hs1) as Hf1.
  match type of Hf1 with _ = Some ?x => set (a1 := x) in * end.
  destruct (feed_inv _ _ _ Hinv0 Hf1) as [Hinv1 HL1]. rewrite HL0 in HL1.
  assert (current_episode_length a1 = 1%nat) as Hk1
    by (unfold a1; cbn [current_episode_length]; by rewrite Hk0).
  destruct (feed_grad_ok a1 Hinv1) as (g2 & Hg2 & Hs2 & _).
  pose proof (feed_eq a1 1 g2 Hinv1 Hg2 Hs2) as Hf2.
  rewrite Hk1, HL1 in Hf2.
  eexists a1, _. split; [exact Hf1|]. split; [exact Hk1|].
  split; [exact HL1|]. split; [exact Hf2|].
  cbn [episode_rewards]. rewrite put_slice_dropped by lia.
  destruct Hinv1 as (Hs & Hwf & _). unfold nd_wf in Hwf.
  rewrite Hs, HL1 in Hwf. change (size_of [1%nat]) with 1%nat in Hwf.
  rewrite lookup_ge_None_2 by lia. discriminate.
Qed.

End AgentSpec.

(** * Properties of the renderer *)

Module RenderSpec.
Import Render.

Section RenderFacts.
Context {kin : Type}.
Variable calc : model_dict kin -> list R -> Z -> ndarray -> ndarray.
Variable quat_of : rpy3 -> list R.
Implicit Types (sm m : model_dict kin) (q : list R) (rows : list rpy3).

Lemma py_get_nonneg {A} (l : list A) (i : Z) :
  (0 <= i)%Z -> py_get l i = l !! Z.to_nat i.
Proof. unfold py_get. intros. destruct (Z.leb_spec 0 i); [reflexivity|lia]. Qed.

Lemma py_get_is_Some {A} (l : list A) (i : Z) :
  (- Z.of_nat (length l) <= i < Z.of_nat (length l))%Z -> is_Some (py_get l i).
Proof.
  unfold py_get. intros.
  destruct (Z.leb_spec 0 i); [apply lookup_lt_is_Some_2; lia|].
  destruct (Z.leb_spec (- Z.of_nat (length l)) i); [|lia].
  apply lookup_lt_is_Some_2. lia.
Qed.

Lemma py_get_replicate {A} (n : nat) (x y : A) (i : Z) :
  py_get (replicate n x) i = Some y -> y = x.
Proof.
  unfold py_get. rewrite length_replicate.
  repeat case_match; try discriminate; intros [-> _]%lookup_replicate; reflexivity.
Qed.

Lemma rpy_iter_link sm m q rows i :
  rpy_iter sm m q (Some rows) i
  = (fun r => <[i := r]> rows) <$> link_rpy sm m q i rows.
Proof.
  unfold rpy_iter, link_rpy. cbn [mbind option_bind].
  destruct (parent sm !! i) as [p|]; [|reflexivity]. cbn [mbind option_bind].
  destruct (py_get rows (p - 1)) as [b|]; [|reflexivity]. cbn [mbind option_bind].
  destruct (joint_rpy m q i rows (p - 1) b); reflexivity.
Qed.

Lemma rows_before_insert rows i n r :
  (i <= n)%nat -> rows_before (<[n := r]> rows) i = rows_before rows i.
Proof.
  intros. unfold rows_before. rewrite length_insert, take_insert_ge by lia.
  reflexivity.
Qed.

Lemma rpy_loop sm m q (N n : nat) rows :
  (n <= N)%nat ->
  foldl (rpy_iter sm m q) (Some (replicate N rpy_zero)) (seq 0 n) = Some rows ->
  length rows = N /\
  drop n rows = replicate (N - n) rpy_zero /\
  forall i, (i < n)%nat ->
    exists r, rows !! i = Some r /\
              link_rpy sm m q i (rows_before rows i) = Some r.
Proof.
  revert rows. induction n as [|n IH]; intros rows Hn Hloop.
  - simpl in Hloop. injection Hloop as <-.
    rewrite length_replicate, Nat.sub_0_r.
    split; [reflexivity|]. split; [reflexivity|]. intros; lia.
  - rewrite seq_S, foldl_app in Hloop. cbn [foldl Nat.add] in Hloop.
    destruct (foldl (rpy_iter sm m q) (Some (replicate N rpy_zero)) (seq 0 n))
      as [rows_n|] eqn:E; [|discriminate].
    destruct (IH rows_n ltac:(lia) eq_refl) as (Hlen & Hdrop & Hrows).
    rewrite rpy_iter_link in Hloop.
    destruct (link_rpy sm m q n rows_n) as [r|] eqn:Hr; [|discriminate].
    injection Hloop as <-.
    split; [by rewrite length_insert|]. split.
    + rewrite drop_insert_lt by lia.
      replace (S n) with (n + 1)%nat by lia.
      rewrite <- drop_drop, Hdrop.
      replace (N - n)%nat with (S (N - (n + 1))) by lia. reflexivity.
    + intros i Hi. destruct (decide (i = n)) as [->|Hne].
      * exists r. split; [apply list_lookup_insert_eq; lia|].
        rewrite rows_before_insert by lia.
        unfold rows_before. rewrite Hlen, <- Hdrop, take_drop. exact Hr.
      * destruct (Hrows i ltac:(lia)) as (ri & Hri & Hl).
        exists ri. rewrite list_lookup_insert_ne by lia.
        rewrite rows_before_insert by lia. by split.
Qed.

Lemma joint_rpy_total m q i rows pid b :
  is_Some (jtype m !! i) -> is_Some (jaxis m !! i) -> is_Some (q !! i) ->
  is_Some (py_get rows pid) -> is_Some (joint_rpy m q i rows pid b).
Proof.
  intros [jt Hjt] [ax Hax] [qi Hqi] [p Hp]. unfold joint_rpy.
  destruct (Nat.eqb_spec i 0) as [->|_];
    rewrite Hjt; cbn [mbind option_bind];
    (destruct (jt =? 0)%Z; [|eauto]);
    rewrite Hax, ?Hqi, ?Hp; cbn [mbind option_bind];
    repeat (case_match; cbn [mbind option_bind]; eauto);
    rewrite ?Hqi, ?Hp; cbn [mbind option_bind]; eauto.
Qed.

Lemma link_rpy_total sm m q (N i : nat) rows :
  rpy_ok sm m q N -> length rows = N -> (i < N)%nat ->
  is_Some (link_rpy sm m q i rows).
Proof.
  intros (Hp & Hjt & Hax & Hq & Hrange) Hlen Hi. unfold link_rpy.
  destruct (lookup_lt_is_Some_2 (parent sm) i ltac:(lia)) as [p Hpi].
  rewrite Hpi. cbn [mbind option_bind].
  assert (- Z.of_nat N <= p - 1 < Z.of_nat N)%Z as Hpr.
  { rewrite Forall_lookup in Hrange. apply (Hrange i).
    rewrite lookup_take_lt by lia. exact Hpi. }
  destruct (py_get_is_Some rows (p - 1)) as [b Hb]; [by rewrite Hlen|].
  rewrite Hb. cbn [mbind option_bind].
  apply joint_rpy_total; try (apply lookup_lt_is_Some_2; lia). eauto.
Qed.

Lemma rpy_loop_total sm m q (N n : nat) :
  rpy_ok sm m q N -> (n <= N)%nat ->
  is_Some (foldl (rpy_iter sm m q) (Some (replicate N rpy_zero)) (seq 0 n)).
Proof.
  intros Hok. induction n as [|n IH]; intros Hn; [by eexists|].
  destruct IH as [rows_n E]; [lia|].
  rewrite seq_S, foldl_app, E. cbn [foldl Nat.add].
  rewrite rpy_iter_link.
  destruct (rpy_loop sm m q N n rows_n ltac:(lia) E) as (Hlen & _).
  destruct (link_rpy_total sm m q N n rows_n Hok Hlen ltac:(lia)) as [r ->].
  by eexists.
Qed.

Lemma rows_before_0 rows : rows_before rows 0 = replicate (length rows) rpy_zero.
Proof. unfold rows_before. rewrite take_0, Nat.sub_0_r. reflexivity. Qed.

Lemma rows_before_lookup rows (i j : nat) :
  (j < i)%nat -> (i <= length rows)%nat -> rows_before rows i !! j = rows !! j.
Proof.
  intros. unfold rows_before.
  rewrite lookup_app_l by (rewrite length_take; lia).
  apply lookup_take_lt. lia.
Qed.

(** Link 0 starts from a zero row. *)
Lemma link_rpy_root sm m q rows r :
  link_rpy sm m q 0 (rows_before rows 0) = Some r ->
  forall jt, jtype m !! 0%nat = Some jt ->
    (jt <> 0%Z -> r = rpy_zero) /\
    (jt = 0%Z -> forall ax v0, jaxis m !! 0%nat = Some ax -> q !! 0%nat = Some v0 ->
       (ax = "x"%string -> r = mk_rpy v0 0 0) /\
       (ax = "y"%string -> r = mk_rpy 0 v0 0) /\
       (ax = "z"%string -> r = mk_rpy 0 0 v0)).
Proof.
  unfold link_rpy. rewrite rows_before_0. intros Hl jt Hjt.
  destruct (parent sm !! 0%nat) as [p|]; [|discriminate]. cbn in Hl.
  destruct (py_get _ (p - 1)) as [b|] eqn:Hb; [|discriminate]. cbn in Hl.
  apply py_get_replicate in Hb as ->.
  unfold joint_rpy in Hl. cbn [Nat.eqb] in Hl. rewrite Hjt in Hl. cbn in Hl.
  split.
  - intros Hne. apply Z.eqb_neq in Hne. rewrite Hne in Hl. congruence.
  - intros -> ax v0 Hax Hq. cbn in Hl. rewrite Hax in Hl. cbn in Hl.
    rewrite Hq in Hl.
    repeat split; intros ->; cbn in Hl; by injection Hl as <-.
Qed.

(** Link 0 with an axis that is none of x, y, z stays the zero row, and
    [q] is not read. *)
Lemma link_rpy_root_other sm m q rows r ax :
  link_rpy sm m q 0 (rows_before rows 0) = Some r ->
  jtype m !! 0%nat = Some 0%Z -> jaxis m !! 0%nat = Some ax ->
  ax <> "x"%string -> ax <> "y"%string -> ax <> "z"%string ->
  r = rpy_zero.
Proof.
  unfold link_rpy. rewrite rows_before_0. intros Hl Hjt Hax Hx Hy Hz.
  destruct (parent sm !! 0%nat) as [p|]; [|discriminate]. cbn in Hl.
  destruct (py_get _ (p - 1)) as [b|] eqn:Hb; [|discriminate]. cbn in Hl.
  apply py_get_replicate in Hb as ->.
  unfold joint_rpy in Hl. cbn [Nat.eqb] in Hl. rewrite Hjt in Hl. cbn in Hl.
  rewrite Hax in Hl. cbn in Hl.
  apply String.eqb_neq in Hx, Hy, Hz. rewrite Hx, Hy, Hz in Hl.
  by injection Hl as <-.
Qed.

(** A later link whose parent row is already final. *)
Lemma link_rpy_child sm m q rows (i : nat) (p : Z) r par :
  (0 < i <= length rows)%nat ->
  link_rpy sm m q i (rows_before rows i) = Some r ->
  parent sm !! i = Some p -> (1 <= p <= Z.of_nat i)%Z ->
  rows !! Z.to_nat (p - 1) = Some par ->
  forall jt, jtype m !! i = Some jt ->
    (jt <> 0%Z -> r = par) /\
    (jt = 0%Z -> forall ax qi, jaxis m !! i = Some ax -> q !! i = Some qi ->
       r = spec_axis ax par qi).
Proof.
  intros Hi Hl Hp Hrange Hpar jt Hjt. unfold link_rpy in Hl.
  rewrite Hp in Hl. cbn [mbind option_bind] in Hl.
  assert (py_get (rows_before rows i) (p - 1) = Some par) as Hget.
  { rewrite py_get_nonneg by lia. rewrite rows_before_lookup by lia. exact Hpar. }
  rewrite Hget in Hl. cbn [mbind option_bind] in Hl.
  unfold joint_rpy in Hl.
  destruct (Nat.eqb_spec i 0) as [?|_]; [lia|].
  rewrite Hjt in Hl. cbn [mbind option_bind] in Hl. split.
  - intros Hne. apply Z.eqb_neq in Hne. rewrite Hne in Hl. congruence.
  - intros -> ax qi Hax Hq. cbn in Hl. rewrite Hax in Hl. cbn in Hl.
    rewrite Hget, Hq in Hl. unfold spec_axis.
    repeat case_match; cbn in Hl; congruence.
Qed.

(** On inputs in range the loop of [transform_rpy] runs to its end. *)
Lemma transform_rpy_total (self : ObdlRender kin) m q :
  rpy_ok (model self) m q (NL self) -> is_Some (transform_rpy self m q).
Proof.
  intros Hok. unfold transform_rpy.
  destruct (rpy_loop_total (model self) m q (NL self) (NL self) Hok (le_n _))
    as [rows ->].
  by eexists.
Qed.

(** When it returns, every row is what its iteration computed from the rows
    before it. *)
Lemma transform_rpy_inv (self self' : ObdlRender kin) m q :
  transform_rpy self m q = Some self' ->
  exists rows,
    self' = set_rpys self rows /\
    length rows = NL self /\
    forall i : nat, (i < NL self)%nat ->
      exists r, rows !! i = Some r /\
                link_rpy (model self) m q i (rows_before rows i) = Some r.
Proof.
  unfold transform_rpy. intros Hret.
  destruct (foldl _ _ _) as [rows|] eqn:E; [|discriminate].
  injection Hret as <-. exists rows. split; [reflexivity|].
  destruct (rpy_loop (model self) m q (NL self) (NL self) rows (le_n _) E)
    as (Hlen & _ & Hrows).
  by split.
Qed.

(** C7, as the code has it: [transform_rpy] returns on inputs on which no
    index is out of range, and whenever it returns, [rpys] equals [j_rpys];
    link 0 is the zero row when jtype[0] is not 0 and when its axis is none
    of 'x', 'y', 'z', and the zero row with the component of its axis set
    to q[0] when jtype[0] == 0 and the axis is 'x', 'y' or 'z'; and for
    each link i > 0 whose parent is an earlier link
    (1 <= parent[i] <= i), j_rpys[i] is the parent's row
    j_rpys[parent[i]-1] with the component the axis selects replaced by the
    parent's component plus q[i] ('x', 'y', 'z') or minus q[i] ('a', 'b',
    'c') when jtype[i] == 0, and the parent's row unchanged when jtype[i]
    is not 0. *)
Theorem transform_rpy_rows (self : ObdlRender kin) m q :
  (rpy_ok (model self) m q (NL self) -> is_Some (transform_rpy self m q)) /\
  forall self', transform_rpy self m q = Some self' ->
    rpys self' = j_rpys self' /\
    length (j_rpys self') = NL self /\
    (forall r jt, j_rpys self' !! 0%nat = Some r -> jtype m !! 0%nat = Some jt ->
       (jt <> 0%Z -> r = rpy_zero) /\
       (jt = 0%Z -> forall ax, jaxis m !! 0%nat = Some ax ->
          (ax <> "x"%string -> ax <> "y"%string -> ax <> "z"%string ->
           r = rpy_zero) /\
          forall v0, q !! 0%nat = Some v0 ->
            (ax = "x"%string -> r = mk_rpy v0 0 0) /\
            (ax = "y"%string -> r = mk_rpy 0 v0 0) /\
            (ax = "z"%string -> r = mk_rpy 0 0 v0))) /\
    (forall (i : nat) p r par jt,
       (0 < i)%nat -> j_rpys self' !! i = Some r ->
       parent (model self) !! i = Some p -> (1 <= p <= Z.of_nat i)%Z ->
       j_rpys self' !! Z.to_nat (p - 1) = Some par ->
       jtype m !! i = Some jt ->
       (jt <> 0%Z -> r = par) /\
       (jt = 0%Z -> forall ax qi,
          jaxis m !! i = Some ax -> q !! i = Some qi ->
          r = spec_axis ax par qi)).
Proof.
  split; [apply transform_rpy_total|]. intros self' Hret.
  destruct (transform_rpy_inv self self' m q Hret) as (rows & -> & Hlen & Hrows).
  cbn [rpys j_rpys set_rpys]. split; [reflexivity|]. split; [exact Hlen|]. split.
  - intros r jt Hr Hjt.
    destruct (Hrows 0%nat) as (r' & Hr' & Hl);
      [apply lookup_lt_Some in Hr; lia|].
    rewrite Hr in Hr'. injection Hr' as <-.
    destruct (link_rpy_root _ _ _ _ _ Hl jt Hjt) as [Hne Heq].
    split; [exact Hne|]. intros -> ax Hax. split.
    + by apply (link_rpy_root_other _ _ _ _ _ _ Hl Hjt Hax).
    + intros v0 Hv0. by apply Heq.
  - intros i p r par jt Hi Hr Hp Hrange Hpar Hjt.
    pose proof (lookup_lt_Some _ _ _ Hr) as Hlt.
    destruct (Hrows i) as (r' & Hr' & Hl); [lia|].
    rewrite Hr in Hr'. injection Hr' as <-.
    eapply link_rpy_child; eauto. lia.
Qed.

Lemma pose_iter_obj (self : ObdlRender kin) q objs (i : nat) o :
  objs !! i = Some o ->
  pose_iter calc quat_of self q (Some objs) i
  = (fun o' => <[i := o']> objs) <$> pose_obj calc quat_of self q o.
Proof.
  intros Ho. unfold pose_iter, pose_obj. cbn [mbind option_bind].
  rewrite Ho. cbn [mbind option_bind].
  destruct (parent_joint o =? 0)%Z.
  - cbn. by rewrite list_insert_id.
  - destruct (transform_pos calc quat_of self (model self) o q) as [[pos qua]|];
      reflexivity.
Qed.

Lemma pose_loop (self : ObdlRender kin) q objs (n : nat) cur :
  (n <= length objs)%nat ->
  foldl (pose_iter calc quat_of self q) (Some objs) (seq 0 n) = Some cur ->
  length cur = length objs /\
  drop n cur = drop n objs /\
  forall (i : nat) o, (i < n)%nat -> objs !! i = Some o ->
    exists o', cur !! i = Some o' /\ pose_obj calc quat_of self q o = Some o'.
Proof.
  revert cur. induction n as [|n IH]; intros cur Hn Hloop.
  - injection Hloop as <-. repeat split. intros; lia.
  - rewrite seq_S, foldl_app in Hloop. cbn [foldl Nat.add] in Hloop.
    destruct (foldl (pose_iter calc quat_of self q) (Some objs) (seq 0 n))
      as [cur_n|] eqn:E.
    2:{ unfold pose_iter in Hloop. discriminate. }
    destruct (IH cur_n ltac:(lia) eq_refl) as (Hlen & Hdrop & Hobjs).
    destruct (lookup_lt_is_Some_2 objs n ltac:(lia)) as [o Ho].
    assert (cur_n !! n = Some o) as Hcur.
    { rewrite <- (Nat.add_0_r n), <- lookup_drop, Hdrop, lookup_drop, Nat.add_0_r.
      exact Ho. }
    rewrite (pose_iter_obj _ _ _ _ o Hcur) in Hloop.
    destruct (pose_obj calc quat_of self q o) as [o'|] eqn:Hpose; [|discriminate].
    injection Hloop as <-.
    split; [by rewrite length_insert|]. split.
    + rewrite drop_insert_lt by lia.
      replace (S n) with (n + 1)%nat by lia. by rewrite <- !drop_drop, Hdrop.
    + intros i oi Hi Hoi. destruct (decide (i = n)) as [->|Hne].
      * exists o'. rewrite list_lookup_insert_eq by lia.
        rewrite Ho in Hoi. injection Hoi as <-. by split.
      * rewrite list_lookup_insert_ne by lia. apply Hobjs; [lia|exact Hoi].
Qed.

Lemma pose_loop_total (self : ObdlRender kin) q objs (n : nat) :
  Forall (fun o => is_Some (pose_obj calc quat_of self q o)) objs ->
  (n <= length objs)%nat ->
  is_Some (foldl (pose_iter calc quat_of self q) (Some objs) (seq 0 n)).
Proof.
  intros Hall. induction n as [|n IH]; intros Hn; [by eexists|].
  destruct IH as [cur_n E]; [lia|].
  destruct (pose_loop self q objs n cur_n ltac:(lia) E) as (Hlen & Hdrop & _).
  destruct (lookup_lt_is_Some_2 objs n ltac:(lia)) as [o Ho].
  assert (cur_n !! n = Some o) as Hcur.
  { rewrite <- (Nat.add_0_r n), <- lookup_drop, Hdrop, lookup_drop, Nat.add_0_r.
    exact Ho. }
  rewrite seq_S, foldl_app, E. cbn [foldl Nat.add].
  rewrite (pose_iter_obj _ _ _ _ o Hcur).
  rewrite Forall_lookup in Hall. destruct (Hall n o Ho) as [o' ->]. by eexists.
Qed.

Lemma move_objs (eng : list engine_call) (objs : list RenderObject) :
  foldl move_obj eng objs = eng ++ (pose_call <$> objs).
Proof.
  revert eng. induction objs as [|o objs IH]; intros eng; simpl.
  - by rewrite app_nil_r.
  - rewrite IH. unfold move_obj. by rewrite <- app_assoc.
Qed.

Lemma pose_obj_total (self : ObdlRender kin) q o :
  (parent_joint o <> 0%Z ->
   (- Z.of_nat (length (rpys self)) <= parent_joint o
    < Z.of_nat (length (rpys self)))%Z) ->
  is_Some (pose_obj calc quat_of self q o).
Proof.
  intros Hr. unfold pose_obj.
  destruct (Z.eqb_spec (parent_joint o) 0) as [|Hne]; [by eexists|].
  unfold transform_pos.
  destruct (py_get_is_Some (rpys self) (parent_joint o) (Hr Hne)) as [r ->].
  by eexists.
Qed.

(** [step_render] as one pass over the objects, whenever it returns. *)
Lemma step_render_inv (self self' : ObdlRender kin) q :
  step_render calc quat_of self q = Some self' ->
  exists mid objs',
    transform_rpy (rpy_cleared self) (model self) q = Some mid /\
    model mid = model self /\
    length objs' = length (render_objects self) /\
    (forall (i : nat) o, render_objects self !! i = Some o ->
       exists o', objs' !! i = Some o' /\
                  pose_obj calc quat_of mid q o = Some o') /\
    render_objects self' = objs' /\
    engine self' = engine self ++ (pose_call <$> objs').
Proof.
  unfold step_render.
  change (mk_render _ _ _ rpy_zero _ _ _ _) with (rpy_cleared self).
  change (model (rpy_cleared self)) with (model self).
  intros Hstep.
  destruct (transform_rpy (rpy_cleared self) (model self) q) as [mid|] eqn:Hmid;
    [|discriminate].
  cbn [mbind option_bind] in Hstep.
  destruct (transform_rpy_inv _ _ _ _ Hmid) as (rows & Hrows & _).
  destruct (foldl _ _ _) as [objs'|] eqn:Hloop; [|discriminate].
  injection Hstep as <-.
  destruct (pose_loop mid q _ _ objs' (le_n _) Hloop) as (Hlen' & _ & Hposes).
  exists mid, objs'. rewrite Hrows in *. cbn [render_objects engine model] in *.
  repeat (split; [done|]). split.
  - intros i o Hio. apply Hposes; [|exact Hio].
    by apply lookup_lt_Some in Hio.
  - split; [reflexivity|]. apply move_objs.
Qed.

Lemma step_render_total (self : ObdlRender kin) q :
  render_ok self q -> is_Some (step_render calc quat_of self q).
Proof.
  intros [Hrpy Hobjs]. unfold step_render.
  change (mk_render _ _ _ rpy_zero _ _ _ _) with (rpy_cleared self).
  change (model (rpy_cleared self)) with (model self).
  destruct (transform_rpy_total (rpy_cleared self) (model self) q Hrpy)
    as [mid Hmid].
  rewrite Hmid. cbn [mbind option_bind].
  destruct (transform_rpy_inv _ _ _ _ Hmid) as (rows & -> & Hlen & _).
  cbn [render_objects set_rpys rpy_cleared].
  destruct (pose_loop_total (set_rpys (rpy_cleared self) rows) q
              (render_objects self) (length (render_objects self)))
    as [objs' ->]; [|lia|by eexists].
  eapply Forall_impl; [exact Hobjs|]. intros o Hr. apply pose_obj_total.
  cbn [rpys set_rpys]. rewrite Hlen. exact Hr.
Qed.

(** C6: the position [transform_pos] returns is exactly the flattened
    result of CalcBodyToBaseCoordinates(model, q, obj.parent_joint + 1,
    flatten(obj.origin)), with no arithmetic of its own, and the quaternion
    is the Euler-to-quaternion conversion of self.rpys[obj.parent_joint];
    it returns whenever that row exists. *)
Theorem transform_pos_external (self : ObdlRender kin) m (obj : RenderObject) q
    (pos qua : ndarray) :
  transform_pos calc quat_of self m obj q = Some (pos, qua) <->
  pos = flatten (calc m q (parent_joint obj + 1)%Z (flatten (origin obj))) /\
  exists r, py_get (rpys self) (parent_joint obj) = Some r /\
            qua = flatten (asarray (quat_of r)).
Proof.
  unfold transform_pos. split.
  - destruct (py_get (rpys self) (parent_joint obj)) as [r|]; [|discriminate].
    cbn. intros [= <- <-]. eauto.
  - intros (-> & r & -> & ->). reflexivity.
Qed.

(** C5, as the code has it: [step_render] returns on inputs on which no
    index is out of range, and whenever it returns: for every render object
    whose parent_joint is not 0 it has converted the joint angles into a
    position and a quaternion ([transform_rpy], then [transform_pos]) and
    assigned that pose to the object; and it has fed the pose of every
    object, in order, to the engine through [move_obj]. *)
Theorem step_render_poses (self : ObdlRender kin) q :
  (render_ok self q -> is_Some (step_render calc quat_of self q)) /\
  forall self', step_render calc quat_of self q = Some self' ->
    exists mid,
      transform_rpy (rpy_cleared self) (model self) q = Some mid /\
      (forall (i : nat) o,
         render_objects self !! i = Some o -> parent_joint o <> 0%Z ->
         exists pos qua,
           transform_pos calc quat_of mid (model self) o q = Some (pos, qua) /\
           render_objects self' !! i = Some (assign_pose o pos qua)) /\
      engine self' = engine self ++ (pose_call <$> render_objects self').
Proof.
  split; [apply step_render_total|]. intros self' Hstep.
  destruct (step_render_inv self self' q Hstep)
    as (mid & objs' & Hmid & Hm & Hlen & Hposes & Hobjs & Heng).
  exists mid. split; [exact Hmid|]. rewrite Hobjs. split; [|exact Heng].
  intros i o Hio Hne. destruct (Hposes i o Hio) as (o' & Ho' & Hpose).
  unfold pose_obj in Hpose. rewrite Hm in Hpose.
  apply Z.eqb_neq in Hne. rewrite Hne in Hpose.
  destruct (transform_pos calc quat_of mid (model self) o q) as [[pos qua]|];
    [|discriminate].
  injection Hpose as <-. eauto.
Qed.

(** C9: whenever [step_render] returns (and it does on inputs on which no
    index is out of range), every render object whose parent_joint is 0
    has its position and its quaternion unchanged, and that old pose is
    still sent to the engine, as the call for that object; an object whose
    parent_joint is not 0 has the pose [transform_pos] computes. *)
Theorem step_render_root_frame (self : ObdlRender kin) q :
  (render_ok self q -> is_Some (step_render calc quat_of self q)) /\
  forall self', step_render calc quat_of self q = Some self' ->
    exists mid,
      transform_rpy (rpy_cleared self) (model self) q = Some mid /\
      length (render_objects self') = length (render_objects self) /\
      forall (i : nat) o, render_objects self !! i = Some o ->
        exists o', render_objects self' !! i = Some o' /\
          (parent_joint o = 0%Z ->
           position o' = position o /\ quat o' = quat o /\
           engine self' !! (length (engine self) + i)%nat
           = Some (body_id o, position o, quat o)) /\
          (parent_joint o <> 0%Z ->
           transform_pos calc quat_of mid (model self) o q
           = Some (position o', quat o')).
Proof.
  split; [apply step_render_total|]. intros self' Hstep.
  destruct (step_render_inv self self' q Hstep)
    as (mid & objs' & Hmid & Hm & Hlen & Hposes & Hobjs & Heng).
  exists mid. split; [exact Hmid|]. rewrite Hobjs, Heng. split; [exact Hlen|].
  intros i o Hio. destruct (Hposes i o Hio) as (o' & Ho' & Hpose).
  exists o'. split; [exact Ho'|].
  unfold pose_obj in Hpose. rewrite Hm in Hpose. split.
  - intros H0. rewrite H0 in Hpose. cbn in Hpose. injection Hpose as <-.
    split; [reflexivity|]. split; [reflexivity|].
    rewrite lookup_app_r by lia.
    replace (length (engine self) + i - length (engine self))%nat with i by lia.
    rewrite list_lookup_fmap, Ho'. reflexivity.
  - intros Hne. apply Z.eqb_neq in Hne. rewrite Hne in Hpose.
    destruct (transform_pos calc quat_of mid (model self) o q) as [[pos qua]|];
      [|discriminate].
    by injection Hpose as <-.
Qed.

End RenderFacts.

(** *** Concrete instances *)

Lemma chain_rpy_ok : rpy_ok chain_model chain_model [0.5; 1] 2.
Proof.
  unfold rpy_ok. simpl. repeat split; try lia.
  repeat constructor; lia.
Qed.

Lemma chain_render_ok : render_ok (demo_render chain_model) [0.5; 1].
Proof.
  split; [exact chain_rpy_ok|].
  repeat constructor; simpl; lia.
Qed.

(** The chain returns from [transform_rpy] and from [step_render]. *)
Lemma chain_transform_rpy_returns :
  rpy_ok chain_model chain_model [0.5; 1] 2 /\
  is_Some (transform_rpy (demo_render chain_model) chain_model [0.5; 1]).
Proof. split; [exact chain_rpy_ok | by eexists]. Qed.

Lemma chain_step_render_returns :
  render_ok (demo_render chain_model) [0.5; 1] /\
  is_Some (step_render demo_calc demo_quat (demo_render chain_model) [0.5; 1]).
Proof. split; [exact chain_render_ok | by eexists]. Qed.

(** Two links on the root, q = [0, 1]: link 1 reads row -1, which is its
    own row and still zero, and gets yaw 0 + 1; afterwards row -1 has yaw
    0 + 1, so the parent's yaw plus q[1] would be 0 + 1 + 1. *)
Lemma transform_rpy_root_children :
  exists self',
    transform_rpy (demo_render demo_model) demo_model [0; 1] = Some self' /\
    j_rpys self' = [mk_rpy 0 0 0; mk_rpy 0 0 (0 + 1)] /\
    parent demo_model !! 1%nat = Some 0%Z /\
    jtype demo_model !! 1%nat = Some 0%Z /\
    jaxis demo_model !! 1%nat = Some "z"%string /\
    py_get (j_rpys self') (0 - 1) = Some (mk_rpy 0 0 (0 + 1)) /\
    mk_rpy 0 0 (0 + 1) <> spec_axis "z" (mk_rpy 0 0 (0 + 1)) 1.
Proof.
  eexists. split; [vm_compute; reflexivity|].
  repeat (split; [reflexivity|]).
  vm_compute. intros [= H]. lra.
Qed.

(** The first object of the chain hangs on joint 0: [step_render] keeps
    its stored position (0, 0, 0), while [transform_pos] places it at
    (0 + 1, 0 + 1, 0 + 1). *)
Lemma step_render_keeps_root_pose :
  exists mid self' o',
    transform_rpy (rpy_cleared (demo_render chain_model)) chain_model [0.5; 1]
    = Some mid /\
    step_render demo_calc demo_quat (demo_render chain_model) [0.5; 1]
    = Some self' /\
    render_objects (demo_render chain_model) !! 0%nat = Some (demo_obj 0) /\
    render_objects self' !! 0%nat = Some o' /\
    position o' = mk_ndarray [3%nat] [0; 0; 0] /\
    transform_pos demo_calc demo_quat mid chain_model (demo_obj 0) [0.5; 1]
    = Some (mk_ndarray [3%nat] [0 + 1; 0 + 1; 0 + 1],
            mk_ndarray [4%nat] [0; 0; 0.5; 1]) /\
    position o' <> mk_ndarray [3%nat] [0 + 1; 0 + 1; 0 + 1].
Proof.
  eexists _, _, _. split; [vm_compute; reflexivity|].
  split; [vm_compute; reflexivity|].
  repeat (split; [reflexivity|]).
  vm_compute. intros [= H]. lra.
Qed.

End RenderSpec.

(** * More properties of the agent *)

Module AgentExtSpec.
Import Agent AgentSpec AgentExt.

Section NetworksFacts.
Context {arr : Type} `{ArrayLib arr}.

(** X1: [policy] raises on an empty [params], whatever the state; and
    for a non-empty tail of layers, running [policy] on all layers is
    running it on the tail, from the activations that the loop over the
    first layers leaves. *)
Theorem policy_layers (s : arr) (ps1 ps2 : list (arr * arr)) :
  policy s [] = None /\
  (ps2 <> [] -> policy s (ps1 ++ ps2) = policy (hidden s ps1) ps2).
Proof.
  split; [reflexivity|].
  intros Hne. unfold policy, hidden.
  destruct (exists_last Hne) as (ps & l & ->).
  rewrite app_assoc, !removelast_last, !last_snoc, foldl_app. reflexivity.
Qed.

(** X2: [update] returns as many layers as the shorter of [params] and
    [grads]: parameters beyond the last gradient are dropped from the
    result, not kept. *)
Theorem update_truncates (grads params : list (arr * arr)) (lr : R) :
  length (update grads params lr) = Nat.min (length params) (length grads) /\
  update grads params lr = update grads (take (length grads) params) lr.
Proof.
  split; [apply update_length|].
  unfold update. cbv zeta. symmetry. apply zip_with_take_l.
Qed.

End NetworksFacts.

Section Rows.
Context {A : Type}.

Lemma concat_row (ll : list (list A)) (n i : nat) (row : list A) :
  Forall (fun l => length l = n) ll -> ll !! i = Some row ->
  take n (drop (i * n) (concat ll)) = row.
Proof.
  intros Hall. revert i. induction Hall as [|l ll Hl _ IH]; intros i Hi.
  - discriminate.
  - destruct i as [|i]; cbn [concat].
    + injection Hi as <-. rewrite Nat.mul_0_l, drop_0.
      by rewrite take_app_length'.
    + rewrite drop_app_ge by lia.
      replace (S i * n - length l)%nat with (i * n)%nat by lia.
      by apply IH.
Qed.
End Rows.

Section Softmax.

Lemma softmax_rows (s : list R) :
  Forall (fun l => length l = length s)
    (imap (fun i si =>
             imap (fun j sj => (if (i =? j)%nat then si else 0) - si * sj) s) s).
Proof.
  apply Forall_lookup. intros i row Hrow.
  rewrite list_lookup_imap in Hrow.
  destruct (s !! i); simplify_eq/=. apply length_imap.
Qed.

Lemma softmax_grad_row (s : ndarray) (i : nat) (si : R) :
  data s !! i = Some si ->
  nd_slice (softmax_grad s) i
  = imap (fun j sj => (if (i =? j)%nat then si else 0) - si * sj) (data s).
Proof.
  intros Hi. unfold nd_slice, softmax_grad. cbn [shape data tail size_of foldr].
  rewrite Nat.mul_1_r. apply concat_row; [apply softmax_rows|].
  rewrite list_lookup_imap, Hi. reflexivity.
Qed.

Lemma softmax_grad_entry (s : ndarray) (i j : nat) (si sj : R) :
  data s !! i = Some si -> data s !! j = Some sj ->
  entry2 (softmax_grad s) i j = Some ((if (i =? j)%nat then si else 0) - si * sj).
Proof.
  intros Hi Hj. unfold entry2. cbn [softmax_grad shape].
  apply lookup_lt_Some in Hi as Hi'. apply lookup_lt_Some in Hj as Hj'.
  rewrite !(proj2 (Nat.ltb_lt _ _)) by lia. cbn [andb].
  rewrite <- lookup_drop, <- (lookup_take_lt _ (length (data s))) by lia.
  pose proof (softmax_grad_row s i si Hi) as Hrow. unfold nd_slice in Hrow.
  cbn [softmax_grad shape tail size_of foldr] in Hrow.
  rewrite Nat.mul_1_r in Hrow. rewrite Hrow, list_lookup_imap, Hj. reflexivity.
Qed.

(** X5: [softmax_grad] of a vector of n entries is an n x n array, and it
    is symmetric: entry (i, j) equals entry (j, i), also where both are
    out of range. *)
Theorem softmax_grad_symmetric (s : ndarray) (i j : nat) :
  shape (softmax_grad s) = [length (data s); length (data s)] /\
  entry2 (softmax_grad s) i j = entry2 (softmax_grad s) j i.
Proof.
  split; [reflexivity|].
  destruct (data s !! i) as [si|] eqn:Hi, (data s !! j) as [sj|] eqn:Hj.
  - rewrite (softmax_grad_entry s i j si sj), (softmax_grad_entry s j i sj si)
      by assumption.
    f_equal. destruct (Nat.eqb_spec i j) as [->|Hne].
    + rewrite Nat.eqb_refl. congruence.
    + destruct (Nat.eqb_spec j i); [congruence|]. ring.
  - apply lookup_ge_None in Hj. unfold entry2. cbn [softmax_grad shape].
    rewrite (proj2 (Nat.ltb_ge j _)) by lia.
    by rewrite andb_false_r.
  - apply lookup_ge_None in Hi. unfold entry2. cbn [softmax_grad shape].
    rewrite (proj2 (Nat.ltb_ge i _)) by lia.
    by rewrite andb_false_r.
  - apply lookup_ge_None in Hi. unfold entry2. cbn [softmax_grad shape].
    rewrite (proj2 (Nat.ltb_ge i _)) by lia.
    by rewrite andb_false_r.
Qed.

Lemma sum_imap_row (si : R) (i : nat) (s : list R) (k : nat) :
  foldr Rplus 0
    (imap (fun j sj => (if (i =? k + j)%nat then si else 0) - si * sj) s)
  = (if bool_decide (k <= i < k + length s)%nat then si else 0)
    - si * foldr Rplus 0 s.
Proof.
  revert k. induction s as [|x s IH]; intros k.
  - simpl. rewrite bool_decide_false by lia. lra.
  - rewrite imap_cons. cbn [foldr length].
    rewrite (imap_ext _ (fun j sj => (if (i =? S k + j)%nat then si else 0) - si * sj))
      by (intros j y _; simpl; by replace (k + S j)%nat with (S (k + j)) by lia).
    rewrite IH. rewrite Nat.add_0_r.
    destruct (Nat.eqb_spec i k) as [->|Hne].
    + rewrite bool_decide_false by lia. rewrite bool_decide_true by lia. lra.
    + destruct (decide (S k <= i < S k + length s)%nat).
      * rewrite !bool_decide_true by lia. lra.
      * rewrite !bool_decide_false by lia. lra.
Qed.

Lemma softmax_row_sum (s : ndarray) (i : nat) (si : R) :
  data s !! i = Some si ->
  foldr Rplus 0 (nd_slice (softmax_grad s) i) = si * (1 - nd_sum s).
Proof.
  intros Hi. rewrite (softmax_grad_row s i si Hi).
  pose proof (sum_imap_row si i (data s) 0) as Hsum. cbn [Nat.add] in Hsum.
  rewrite Hsum. apply lookup_lt_Some in Hi.
  rewrite bool_decide_true by lia. unfold nd_sum. ring.
Qed.

(** X6: row i of [softmax_grad(s)] sums to s[i] * (1 - sum(s)), hence to
    zero when the entries of [s] sum to 1. *)
Theorem softmax_grad_row_sum (s : ndarray) (i : nat) (si : R) :
  data s !! i = Some si ->
  foldr Rplus 0 (nd_slice (softmax_grad s) i) = si * (1 - nd_sum s) /\
  (nd_sum s = 1 -> foldr Rplus 0 (nd_slice (softmax_grad s) i) = 0).
Proof.
  intros Hi. pose proof (softmax_row_sum s i si Hi) as E.
  split; [exact E|]. intros H1. rewrite E, H1. ring.
Qed.

Lemma softmax_grad_row_sum_witness :
  data half_half !! 0%nat = Some 0.5 /\
  (foldr Rplus 0 (nd_slice (softmax_grad half_half) 0) = 0.5 * (1 - nd_sum half_half) /\
   (nd_sum half_half = 1 ->
    foldr Rplus 0 (nd_slice (softmax_grad half_half) 0) = 0)).
Proof.
  split; [reflexivity|].
  exact (softmax_grad_row_sum half_half 0 0.5 eq_refl).
Defined.
End Softmax.

(** *** Shapes through the networks *)

Lemma rows_of_lengths (m n : nat) (l : list R) :
  (m * n <= length l)%nat -> Forall (fun row => length row = n) (rows_of m n l).
Proof.
  revert l. induction m as [|m IH]; intros l Hl; [constructor|].
  cbn [rows_of]. constructor.
  - rewrite length_take. nia.
  - apply IH. rewrite length_drop. nia.
Qed.

Lemma dot_rows_length (n : nat) (xs : list (R * list R)) :
  Forall (fun xr => length (snd xr) = n) xs ->
  length (foldr (fun '(x, row) acc => zip_with Rplus (Rmult x <$> row) acc)
            (replicate n 0) xs) = n.
Proof.
  induction 1 as [|[x row] xs Hrow _ IH]; [apply length_replicate|].
  cbn [foldr]. rewrite length_zip_with, length_fmap, IH. simpl in Hrow. lia.
Qed.

Lemma nd_dot_vector (a w : ndarray) (m n : nat) :
  is_vector a m -> shape w = [m; n] -> nd_wf w -> is_vector (nd_dot a w) n.
Proof.
  intros [_ Ha] Hs Hw. unfold nd_wf in Hw. rewrite Hs in Hw.
  cbn [size_of foldr] in Hw.
  unfold nd_dot, is_vector. rewrite Hs. cbn [shape data]. split; [reflexivity|].
  apply dot_rows_length.
  apply Forall_forall. intros [x row] Hin. cbn [snd].
  apply elem_of_zip_r in Hin. cbn [snd] in Hin.
  pose proof (rows_of_lengths (length (data a)) n (data w) ltac:(nia)) as Hrows.
  rewrite Forall_forall in Hrows. by apply Hrows.
Qed.

Lemma nd_add_vector (a b : ndarray) (n : nat) :
  is_vector a n -> shape b = [n] -> nd_wf b -> is_vector (nd_add a b) n.
Proof.
  intros [Hs Ha] Hb Hwf. unfold nd_wf in Hwf. rewrite Hb in Hwf.
  cbn [size_of foldr] in Hwf.
  unfold nd_add, is_vector. cbn [shape data]. split; [exact Hs|].
  rewrite length_zip_with. lia.
Qed.

Lemma affine_vector (s w b : ndarray) (m n : nat) :
  is_vector s m -> shape w = [m; n] -> nd_wf w -> shape b = [n] -> nd_wf b ->
  is_vector (affine s w b) n.
Proof.
  intros. unfold affine. cbn [add dot ndarray_lib].
  eapply nd_add_vector; [by eapply nd_dot_vector|done..].
Qed.

Lemma map_vector (f : R -> R) (a : ndarray) (n : nat) :
  is_vector a n -> is_vector (mk_ndarray (shape a) (f <$> data a)) n.
Proof.
  intros [Hs Hl]. split; [exact Hs|]. cbn [data]. by rewrite length_fmap.
Qed.

Lemma feed_forward_vector (s : ndarray) (ps : list (ndarray * ndarray))
    (m out : nat) :
  ps <> [] -> fits m ps out -> is_vector s m ->
  exists logits, feed_forward s ps = Some logits /\ is_vector logits out.
Proof.
  revert s m. induction ps as [|[w b] rest IH]; intros s m Hne Hfit Hs; [done|].
  destruct Hfit as (n & Hw & Hwf & Hb & Hbf & Hrest).
  pose proof (affine_vector s w b m n Hs Hw Hwf Hb Hbf) as Haff.
  destruct rest as [|l rest'].
  - simpl in Hrest. subst out. eexists. split; [reflexivity | exact Haff].
  - change (feed_forward s ((w, b) :: l :: rest'))
      with (feed_forward (relu (affine s w b)) (l :: rest')).
    apply (IH _ n); [done | exact Hrest |].
    by apply (map_vector (Rmax 0)).
Qed.

(** X7: on layers whose shapes chain from the size of the state to
    [out], [policy] returns, and its logits are a vector of [out]
    entries. *)
Theorem policy_output_shape (s : ndarray) (ps : list (ndarray * ndarray))
    (m out : nat) :
  ps <> [] -> fits m ps out -> is_vector s m ->
  exists logits, policy s ps = Some logits /\ is_vector logits out.
Proof. rewrite policy_feed_forward. apply feed_forward_vector. Qed.

Lemma value_scalar (s : ndarray) (ps : list (ndarray * ndarray)) (m : nat) :
  ps <> [] -> fits m ps 1 -> is_vector s m ->
  exists v, value s ps = Some (mk_ndarray [] [v]).
Proof.
  revert s m. induction ps as [|[w b] rest IH]; intros s m Hne Hfit Hs; [done|].
  destruct Hfit as (n & Hw & Hwf & Hb & Hbf & Hrest).
  pose proof (affine_vector s w b m n Hs Hw Hwf Hb Hbf) as Haff.
  unfold affine in Haff. cbn [add dot ndarray_lib] in Haff.
  destruct rest as [|l rest'].
  - simpl in Hrest. subst n. unfold value. cbn [removelast foldl last mbind option_bind].
    destruct Haff as [Hsh Hlen]. unfold nd_get0. rewrite Hsh. cbn [Nat.ltb Nat.leb size_of foldr].
    destruct (data (nd_add (nd_dot s w) b)) as [|v [|]]; try discriminate.
    eexists. reflexivity.
  - destruct (IH (nd_tanh (nd_add (nd_dot s w) b)) n) as [v Hv];
      [done | exact Hrest | by apply (map_vector tanh)|].
    exists v. rewrite <- Hv. unfold value.
    rewrite !last_cons_cons. reflexivity.
Qed.

Section Facts.
Context {key : Type}.
Implicit Types (a : agent ndarray key).

Lemma feeds_cons a r rs : feeds a (r :: rs) = feed a r ≫= fun a' => feeds a' rs.
Proof.
  unfold feeds. cbn [foldl mbind option_bind].
  destruct (feed a r) as [a'|]; [reflexivity|].
  cbn. induction rs; [reflexivity | assumption].
Qed.

Lemma feed_rewards a a' (r : R) :
  agent_inv a -> feed a r = Some a' ->
  current_episode_length a' = S (current_episode_length a) /\
  max_episode_length a' = max_episode_length a /\
  state a' = state a /\
  episode_rewards a'
  = put_slice (episode_rewards a) (max_episode_length a) []
      (current_episode_length a) [r] /\
  exists grad, feed_grad a = Some grad /\
    length (data grad) = size_of [nth 0 (shape (W a)) O; nth 1 (shape (W a)) O] /\
    episode_grads a'
    = put_slice (episode_grads a) (max_episode_length a)
        [nth 0 (shape (W a)) O; nth 1 (shape (W a)) O]
        (current_episode_length a) (data grad).
Proof.
  intros Hinv Hfeed.
  destruct (feed_grad_ok a Hinv) as (grad & Hgrad & Hsg & Hlg).
  rewrite (feed_eq a r grad Hinv Hgrad Hsg) in Hfeed. injection Hfeed as <-.
  cbn [current_episode_length max_episode_length state episode_rewards
       episode_grads].
  repeat (split; [reflexivity|]). exists grad. rewrite Hsg in Hlg.
  split; [exact Hgrad|]. split; [exact Hlg|reflexivity].
Qed.

(** In range, the rewards are recorded in order. *)
Lemma feeds_record a (rs : list R) :
  agent_inv a ->
  (current_episode_length a + length rs <= max_episode_length a)%nat ->
  exists a',
    feeds a rs = Some a' /\
    agent_inv a' /\
    current_episode_length a' = (current_episode_length a + length rs)%nat /\
    data (episode_rewards a')
    = take (current_episode_length a) (data (episode_rewards a)) ++ rs
      ++ drop (current_episode_length a + length rs) (data (episode_rewards a)).
Proof.
  revert a. induction rs as [|r rs IH]; intros a Hinv Hk.
  - exists a. cbn [length]. rewrite Nat.add_0_r. split; [reflexivity|].
    split; [exact Hinv|]. split; [reflexivity|].
    cbn [app]. by rewrite take_drop.
  - destruct (feed_grad_ok a Hinv) as (grad & Hgrad & Hsg & _).
    pose proof (feed_eq a r grad Hinv Hgrad Hsg) as Hfeed.
    destruct (feed_inv _ _ _ Hinv Hfeed) as [Hinv1 HL1].
    destruct (feed_rewards _ _ _ Hinv Hfeed) as (Hk1 & _ & _ & Hrw & _).
    match type of Hfeed with _ = Some ?x => set (a1 := x) in * end.
    cbn [length] in Hk.
    destruct (IH a1 Hinv1) as (a' & Hfeeds & Hinv' & Hk' & Hdata);
      [rewrite Hk1, HL1; lia|].
    exists a'. rewrite feeds_cons, Hfeed. cbn [mbind option_bind].
    split; [exact Hfeeds|]. split; [exact Hinv'|].
    split; [rewrite Hk', Hk1; cbn [length]; lia|].
    rewrite Hdata, Hk1, Hrw. unfold put_slice.
    destruct Hinv as (Hs & Hwf & _). unfold nd_wf in Hwf. rewrite Hs in Hwf.
    cbn [size_of foldr] in Hwf |- *.
    destruct (Nat.ltb_spec (current_episode_length a) (max_episode_length a));
      [|lia].
    cbn [data]. rewrite !Nat.mul_1_r.
    set (k := current_episode_length a) in *. set (d := data (episode_rewards a)) in *.
    assert (length (take k d) = k) as Hlk by (rewrite length_take; lia).
    rewrite (take_app_ge _ _ (S k)) by lia. rewrite Hlk.
    replace (S k - k)%nat with 1%nat by lia. cbn [take app].
    rewrite take_0.
    rewrite drop_app_ge by lia. rewrite Hlk.
    replace (S k + length rs - k)%nat with (S (length rs)) by lia. cbn [drop app].
    rewrite drop_drop, <- app_assoc. cbn [app length].
    replace (k + 1 + length rs)%nat with (k + S (length rs))%nat by lia.
    reflexivity.
Qed.

Lemma feed_grad_zero_state a grad :
  all_zero (state a) -> feed_grad a = Some grad -> all_zero grad.
Proof.
  unfold feed_grad, all_zero. intros Hz Hg.
  destruct (action a); [|discriminate].
  destruct (shape (probs a)) as [|n [|]]; try discriminate.
  injection Hg as <-. cbn [data].
  apply Forall_concat, Forall_fmap.
  eapply Forall_impl; [exact Hz|]. intros x ->. cbn.
  apply Forall_fmap, Forall_forall. intros y _. cbn. ring.
Qed.

Lemma put_slice_zero (x : ndarray) (d : nat) (slot : list nat) (k : nat)
    (vals : list R) :
  all_zero x -> Forall (fun v => v = 0) vals ->
  all_zero (put_slice x d slot k vals).
Proof.
  unfold all_zero, put_slice. intros Hx Hv.
  destruct (k <? d)%nat; [|exact Hx]. cbn [data].
  repeat apply Forall_app_2; [by apply Forall_take | exact Hv | by apply Forall_drop].
Qed.

Lemma feeds_zero_grads a (rs : list R) (a' : agent ndarray key) :
  agent_inv a -> all_zero (state a) -> all_zero (episode_grads a) ->
  feeds a rs = Some a' ->
  all_zero (state a') /\ all_zero (episode_grads a').
Proof.
  revert a. induction rs as [|r rs IH]; intros a Hinv Hst Hgr Hfeeds.
  - injection Hfeeds as <-. by split.
  - rewrite feeds_cons in Hfeeds.
    destruct (feed a r) as [a1|] eqn:Hfeed; [|discriminate].
    cbn [mbind option_bind] in Hfeeds.
    destruct (feed_inv _ _ _ Hinv Hfeed) as [Hinv1 _].
    destruct (feed_rewards _ _ _ Hinv Hfeed)
      as (_ & _ & Hs1 & _ & g & Hg & _ & Hgw).
    apply (IH a1); try assumption.
    + by rewrite Hs1.
    + rewrite Hgw. apply put_slice_zero; [exact Hgr|].
      by apply (feed_grad_zero_state a).
Qed.

Section AfterReset.
Variable generate_key : key -> key * key.
Variable uniform_stream : key -> nat -> R.
Variable randn_stream : nat -> R.
Local Abbreviation reset' := (reset key generate_key uniform_stream randn_stream).

Lemma sum_replicate (n : nat) (c : R) : foldr Rplus 0 (replicate n c) = INR n * c.
Proof.
  induction n as [|n IH]; [simpl; lra|].
  cbn [replicate foldr]. rewrite IH, S_INR. ring.
Qed.

Lemma reset_fields a :
  let a' := fst (reset' a) in
  env_state_size a' = env_state_size a /\
  action_space a' = action_space a /\
  max_episode_length a' = max_episode_length a /\
  current_episode_length a' = O /\
  episode_rewards a' = nd_zeros [max_episode_length a] /\
  episode_grads a'
  = nd_zeros [max_episode_length a; env_state_size a; length (action_space a)] /\
  state a' = nd_zeros [env_state_size a] /\
  (snd (reset' a) = true <-> action_space a <> []) /\
  forall x0 xs, action_space a = x0 :: xs ->
    action a' = PyInt x0 /\
    probs a' = mk_ndarray [length (action_space a)]
                 (replicate (length (action_space a))
                    (1 * 1 / INR (length (action_space a)))).
Proof.
  unfold reset.
  destruct (init_random_params randn_stream 0.1 _ 0) as [ps rng1].
  destruct (init_random_params randn_stream 0.1 _ rng1) as [vps rng2].
  destruct (generate_key (random a)) as [k1 k2].
  destruct (action_space a) as [|x0 xs] eqn:E; cbn [fst snd];
    cbn [env_state_size action_space max_episode_length current_episode_length
         episode_rewards episode_grads state action probs shape nth];
    repeat (split; [reflexivity|]).
  - split; [split; [discriminate | congruence]|]. discriminate.
  - split; [split; [discriminate | reflexivity]|].
    intros ? ? [= <- <-]. split; [reflexivity|].
    unfold nd_sum. cbn [data shape]. rewrite fmap_replicate.
    rewrite sum_replicate, !Rmult_1_r. reflexivity.
Qed.

(** X9: with a non-empty [action_space], [reset] returns, sets [action]
    to the first action and [probs] to the uniform distribution: one entry
    1/A per action, summing to 1. *)
Theorem reset_uniform_probs a (x0 : Z) (xs : list Z) :
  action_space a = x0 :: xs ->
  let a' := fst (reset' a) in
  snd (reset' a) = true /\
  action a' = PyInt x0 /\
  shape (probs a') = [length (action_space a)] /\
  Forall (fun p => p = 1 / INR (length (action_space a))) (data (probs a')) /\
  nd_sum (probs a') = 1.
Proof.
  intros E a'.
  destruct (reset_fields a) as (_ & _ & _ & _ & _ & _ & _ & Hret & Hact).
  destruct (Hact x0 xs E) as [Ha Hp]. fold a' in Ha, Hp.
  split; [apply Hret; by rewrite E|]. split; [exact Ha|].
  rewrite Hp. cbn [shape data]. split; [reflexivity|]. split.
  - apply Forall_replicate. by rewrite Rmult_1_r.
  - unfold nd_sum. cbn [data]. rewrite sum_replicate, E.
    assert (INR (length (x0 :: xs)) <> 0) by (apply not_0_INR; discriminate).
    field. assumption.
Qed.

(** X10: after [reset], feeding at most [max_episode_length] rewards
    returns, counts them, and leaves them in [episode_rewards] in the order
    fed, followed by zeros; the recorded gradients are all zero, because
    [reset] leaves a zero [state]. *)
Theorem reset_then_feeds a (rs : list R) :
  action_space a <> [] ->
  (length rs <= max_episode_length a)%nat ->
  exists a',
    feeds (fst (reset' a)) rs = Some a' /\
    current_episode_length a' = length rs /\
    data (episode_rewards a')
    = rs ++ replicate (max_episode_length a - length rs) 0 /\
    all_zero (episode_grads a').
Proof.
  intros Hne Hlen.
  pose proof (reset_inv generate_key uniform_stream randn_stream a Hne) as Hinv.
  destruct (reset_fields a) as (_ & _ & HL & Hk & Hr & Hg & Hs & _).
  destruct (feeds_record (fst (reset' a)) rs Hinv) as (a' & Hf & Hinv' & Hk' & Hd);
    [rewrite Hk, HL; lia|].
  exists a'. split; [exact Hf|]. split; [by rewrite Hk', Hk|]. split.
  - rewrite Hd, Hk, Hr. cbn [nd_zeros data size_of foldr take app Nat.add].
    rewrite drop_replicate, Nat.mul_1_r. reflexivity.
  - eapply feeds_zero_grads; [exact Hinv| | |exact Hf].
    + rewrite Hs. apply Forall_replicate. reflexivity.
    + rewrite Hg. apply Forall_replicate. reflexivity.
Qed.

Lemma init_layers_fits (scale : R) (dims : list (nat * nat)) (rng m out : nat) :
  dims_chain m dims out ->
  fits m (fst (init_layers randn_stream scale dims rng)) out.
Proof.
  revert rng m. induction dims as [|[m' n] dims IH]; intros rng m Hc; [exact Hc|].
  destruct Hc as [-> Hc]. cbn [init_layers init_layer randn].
  specialize (IH (rng + size_of [m; n] + size_of [n])%nat n Hc).
  destruct (init_layers randn_stream scale dims _) as [ls rng2].
  cbn [fst fits] in *. exists n. unfold nd_wf, nd_scal. cbn [shape data].
  rewrite !length_fmap, !length_seq. by repeat split.
Qed.

(** X12: the networks [reset] builds can be run: on a state vector of
    [env_state_size] entries, [policy] on [params] returns one logit per
    action and [value] on [value_params] returns a scalar. *)
Theorem reset_networks_run (a : agent ndarray key) (s : ndarray) :
  is_vector s (env_state_size a) ->
  let a' := fst (reset' a) in
  (exists logits, policy s (params a') = Some logits /\
                  is_vector logits (length (action_space a))) /\
  (exists v, value s (value_params a') = Some (mk_ndarray [] [v])).
Proof.
  intros Hs a'. subst a'.
  destruct (reset_params generate_key uniform_stream randn_stream a) as [-> ->].
  unfold init_random_params. split.
  - rewrite policy_feed_forward.
    apply (feed_forward_vector _ _ (env_state_size a)); [| |exact Hs].
    + cbn [removelast tail zip zip_with init_layers init_layer randn].
      by repeat destruct (init_layers _ _ _ _).
    + apply init_layers_fits. by cbn.
  - apply (value_scalar _ _ (env_state_size a)); [| |exact Hs].
    + cbn [removelast tail zip zip_with init_layers init_layer randn].
      by repeat destruct (init_layers _ _ _ _).
    + apply init_layers_fits. by cbn.
Qed.
End AfterReset.

Lemma sum_scaled (c : R) (l : list R) :
  foldr Rplus 0 (Rmult c <$> l) = c * foldr Rplus 0 l.
Proof.
  induction l as [|x l IH]; [simpl; lra|].
  rewrite fmap_cons. cbn [foldr]. rewrite IH. ring.
Qed.

Lemma sum_divided (p : R) (l : list R) :
  foldr Rplus 0 ((fun x => x / p) <$> l) = foldr Rplus 0 l / p.
Proof.
  induction l as [|x l IH]; [simpl; unfold Rdiv; lra|].
  rewrite fmap_cons. cbn [foldr]. rewrite IH. unfold Rdiv. ring.
Qed.

(** X13: when [self.action] is an integer index, [probs] is a vector whose
    entries sum to 1 and [probs[action]] is not 0, the gradient [feed]
    computes (the outer product of [state] with
    [softmax_grad(probs)[action] / probs[action]]) has rows that each sum
    to zero. *)
Theorem feed_grad_rows_sum_zero a (p : R) :
  prob_of_action a = Some p -> p <> 0 -> nd_sum (probs a) = 1 ->
  exists grad,
    feed_grad a = Some grad /\
    forall r : nat, foldr Rplus 0 (nd_slice grad r) = 0.
Proof.
  unfold prob_of_action, feed_grad. intros Hp Hp0 Hsum.
  destruct (action a) as [i|]; [|discriminate].
  destruct (shape (probs a)) as [|n [|]]; try discriminate.
  eexists. split; [reflexivity|]. intros r.
  set (pos := jnp_pos n i) in *.
  rewrite (nth_lookup_Some _ _ _ _ Hp).
  set (dlog := (fun x => x / p) <$> nd_slice (softmax_grad (probs a)) pos).
  assert (foldr Rplus 0 dlog = 0) as Hdlog.
  { unfold dlog. rewrite sum_divided.
    rewrite (softmax_row_sum (probs a) pos p Hp), Hsum.
    unfold Rdiv. ring. }
  unfold nd_slice. cbn [shape data tail size_of foldr]. rewrite Nat.mul_1_r.
  destruct (((fun x => Rmult x <$> dlog) <$> data (state a)) !! r) as [row|] eqn:Hr.
  - rewrite (concat_row _ (length dlog) r row); [| |exact Hr].
    + rewrite list_lookup_fmap in Hr.
      destruct (data (state a) !! r); simplify_eq/=.
      rewrite sum_scaled, Hdlog. ring.
    + apply Forall_fmap, Forall_forall. intros x _. cbn. apply length_fmap.
  - rewrite drop_ge; [by rewrite take_nil|].
    apply lookup_ge_None in Hr.
    rewrite (length_concat_rows _ (length dlog)).
    + nia.
    + apply Forall_fmap, Forall_forall. intros x _. cbn. apply length_fmap.
Qed.

End Facts.

(** *** Concrete instances *)

Lemma policy_output_shape_witness :
  demo_net <> [] /\ fits 2 demo_net 1 /\ is_vector demo_state 2 /\
  exists logits, policy demo_state demo_net = Some logits /\ is_vector logits 1.
Proof.
  assert (demo_net <> []) as H1 by discriminate.
  assert (fits 2 demo_net 1) as H2.
  { exists 2%nat. repeat (split; [reflexivity|]).
    exists 1%nat. repeat (split; [reflexivity|]). reflexivity. }
  assert (is_vector demo_state 2) as H3 by (split; reflexivity).
  split; [exact H1|]. split; [exact H2|]. split; [exact H3|].
  exact (policy_output_shape demo_state demo_net 2 1 H1 H2 H3).
Defined.

(** [busy_agent] has taken action 1, of probability 0.75, in the state
    (2, 3). *)
Lemma feed_grad_rows_sum_zero_witness :
  prob_of_action busy_agent = Some 0.75 /\ 0.75 <> 0 /\
  nd_sum (probs busy_agent) = 1 /\
  exists grad,
    feed_grad busy_agent = Some grad /\
    forall r : nat, foldr Rplus 0 (nd_slice grad r) = 0.
Proof.
  assert (prob_of_action busy_agent = Some 0.75) as H1 by reflexivity.
  assert (0.75 <> 0) as H2 by lra.
  assert (nd_sum (probs busy_agent) = 1) as H3
    by (unfold nd_sum; cbn; lra).
  split; [exact H1|]. split; [exact H2|]. split; [exact H3|].
  exact (feed_grad_rows_sum_zero busy_agent 0.75 H1 H2 H3).
Defined.

Lemma reset_uniform_probs_witness :
  action_space small_agent = [0%Z] /\
  let a' := fst (reset unit (fun k => (k, k)) (fun _ _ => 0.5) INR small_agent) in
  snd (reset unit (fun k => (k, k)) (fun _ _ => 0.5) INR small_agent) = true /\
  action a' = PyInt 0 /\
  shape (probs a') = [length (action_space small_agent)] /\
  Forall (fun p => p = 1 / INR (length (action_space small_agent)))
         (data (probs a')) /\
  nd_sum (probs a') = 1.
Proof.
  split; [reflexivity|].
  exact (reset_uniform_probs (fun k => (k, k)) (fun _ _ => 0.5) INR small_agent
           0%Z [] eq_refl).
Defined.

Lemma reset_then_feeds_witness :
  action_space small_agent <> [] /\
  (length [4] <= max_episode_length small_agent)%nat /\
  exists a',
    feeds (fst (reset unit (fun k => (k, k)) (fun _ _ => 0.5) INR small_agent)) [4]
    = Some a' /\
    current_episode_length a' = length [4] /\
    data (episode_rewards a')
    = [4] ++ replicate (max_episode_length small_agent - length [4]) 0 /\
    all_zero (episode_grads a').
Proof.
  assert (action_space small_agent <> []) as H1 by discriminate.
  assert (length [4] <= max_episode_length small_agent)%nat as H2 by (cbn; lia).
  split; [exact H1|]. split; [exact H2|].
  exact (reset_then_feeds (fun k => (k, k)) (fun _ _ => 0.5) INR small_agent [4]
           H1 H2).
Defined.

Lemma reset_networks_run_witness :
  is_vector arr_one (env_state_size small_agent) /\
  let a' := fst (reset unit (fun k => (k, k)) (fun _ _ => 0.5) INR small_agent) in
  (exists logits, policy arr_one (params a') = Some logits /\
                  is_vector logits (length (action_space small_agent))) /\
  (exists v, value arr_one (value_params a') = Some (mk_ndarray [] [v])).
Proof.
  assert (is_vector arr_one (env_state_size small_agent)) as H1
    by (split; reflexivity).
  split; [exact H1|].
  exact (reset_networks_run (fun k => (k, k)) (fun _ _ => 0.5) INR small_agent
           arr_one H1).
Defined.

End AgentExtSpec.

(** * More properties of the renderer *)

Module RenderExtSpec.
Import Render RenderSpec RenderExt.

Section PoseFacts.
Context {kin : Type}.
Variable calc : model_dict kin -> list R -> Z -> ndarray -> ndarray.
Variable quat_of : rpy3 -> list R.
Implicit Types (self : ObdlRender kin) (m : model_dict kin) (q : list R).

Lemma pose_obj_identity self q o o' :
  pose_obj calc quat_of self q o = Some o' ->
  same_identity o o' /\ (parent_joint o = 0%Z -> o' = o).
Proof.
  unfold pose_obj. destruct (Z.eqb_spec (parent_joint o) 0) as [E|Hne].
  - intros [= <-]. by repeat split.
  - destruct (transform_pos _ _ _ _ _ _) as [[pos qua]|]; [|discriminate].
    intros [= <-]. by repeat split.
Qed.

(** The whole result of [step_render]. *)
Lemma step_render_result self self' q :
  step_render calc quat_of self q = Some self' ->
  exists rows objs',
    transform_rpy (rpy_cleared self) (model self) q
    = Some (set_rpys (rpy_cleared self) rows) /\
    length rows = NL self /\
    Forall2 (fun o o' =>
               pose_obj calc quat_of (set_rpys (rpy_cleared self) rows) q o
               = Some o')
            (render_objects self) objs' /\
    self' = mk_render (model self) (NL self) objs' rpy_zero rows rows
              (replicate (NL self) 0) (engine self ++ (pose_call <$> objs')).
Proof.
  unfold step_render. cbv zeta.
  fold (rpy_cleared self).
  change (model (rpy_cleared self)) with (model self).
  intros Hstep.
  destruct (transform_rpy (rpy_cleared self) (model self) q) as [mid|] eqn:Hmid;
    [|discriminate].
  cbn [mbind option_bind] in Hstep.
  destruct (transform_rpy_inv _ _ _ _ Hmid) as (rows & -> & Hlen & _).
  cbn [render_objects set_rpys rpy_cleared] in Hstep.
  destruct (foldl _ _ _) as [objs'|] eqn:Hloop; [|discriminate].
  injection Hstep as <-.
  destruct (pose_loop calc quat_of _ q _ _ objs' (le_n _) Hloop)
    as (Hlen' & _ & Hposes).
  exists rows, objs'. split; [reflexivity|]. split; [exact Hlen|]. split.
  - apply Forall2_same_length_lookup_2; [done|].
    intros i o o' Ho Ho'.
    destruct (Hposes i o) as (o'' & Ho'' & Hp);
      [by apply lookup_lt_Some in Ho | exact Ho |].
    by simplify_eq.
  - cbn. by rewrite move_objs.
Qed.

(** X14: what [step_render] keeps: the model and the link count are
    unchanged, [rpy] is cleared, [rpys] is [j_rpys] with one row per link,
    every render object keeps its type, origin, ids, colour and name, and
    the engine receives exactly one call per render object after the calls
    it had. *)
Theorem step_render_frame self self' q :
  step_render calc quat_of self q = Some self' ->
  model self' = model self /\ NL self' = NL self /\
  rpy self' = rpy_zero /\ rpys self' = j_rpys self' /\
  length (rpys self') = NL self /\
  Forall2 same_identity (render_objects self) (render_objects self') /\
  length (engine self')
  = (length (engine self) + length (render_objects self))%nat /\
  take (length (engine self)) (engine self') = engine self.
Proof.
  intros Hstep.
  destruct (step_render_result _ _ _ Hstep) as (rows & objs' & _ & Hlen & Hall & ->).
  cbn [model NL rpy rpys j_rpys render_objects engine].
  repeat (split; [done|]). split; [|split].
  - eapply Forall2_impl; [exact Hall|]. intros o o' Hp.
    by apply pose_obj_identity in Hp as [? _].
  - rewrite length_app, length_fmap. by apply Forall2_length in Hall as ->.
  - by rewrite take_app_length.
Qed.

Lemma transform_rpy_rows_only self self2 m q :
  model self2 = model self -> NL self2 = NL self ->
  transform_rpy self m q
  = (fun x => set_rpys self (rpys x)) <$> transform_rpy self2 m q.
Proof.
  intros Hm HN. unfold transform_rpy. rewrite Hm, HN.
  destruct (foldl _ _ _); reflexivity.
Qed.

Lemma pose_obj_reads self self2 q o o1 :
  model self2 = model self -> rpys self2 = rpys self ->
  same_identity o o1 -> (parent_joint o = 0%Z -> o1 = o) ->
  pose_obj calc quat_of self2 q o1 = pose_obj calc quat_of self q o.
Proof.
  intros Hm Hr (Ht & Ho & Hp & Hl & Hb & Hc & Hn) Hroot.
  unfold pose_obj, transform_pos. rewrite Hm, Hr, Hp, Ho.
  destruct (Z.eqb_spec (parent_joint o) 0) as [E|Hne].
  - by rewrite (Hroot E).
  - destruct (py_get (rpys self) (parent_joint o)); [|reflexivity].
    cbn. f_equal. unfold assign_pose. by rewrite Ht, Ho, Hp, Hl, Hb, Hc, Hn.
Qed.

(** X15: the poses depend on the last angles only: after a
    [step_render(q1)], [step_render(q2)] returns and leaves the render
    objects and [rpys] that [step_render(q2)] alone gives; only the log of
    engine calls keeps the earlier calls. *)
Theorem step_render_last_call self s1 s2 (q1 q2 : list R) :
  step_render calc quat_of self q1 = Some s1 ->
  step_render calc quat_of self q2 = Some s2 ->
  exists s12,
    step_render calc quat_of s1 q2 = Some s12 /\
    render_objects s12 = render_objects s2 /\
    rpys s12 = rpys s2 /\
    engine s12 = engine s1 ++ (pose_call <$> render_objects s2).
Proof.
  intros H1 H2.
  destruct (step_render_result _ _ _ H1) as (rows1 & objs1 & _ & _ & Hall1 & ->).
  destruct (step_render_result _ _ _ H2) as (rows2 & objs2 & Hrpy2 & Hlen2 & Hall2 & ->).
  set (self1 := mk_render (model self) (NL self) objs1 rpy_zero rows1 rows1
                  (replicate (NL self) 0) (engine self ++ (pose_call <$> objs1))).
  assert (transform_rpy (rpy_cleared self1) (model self) q2
          = Some (set_rpys (rpy_cleared self1) rows2)) as Hrpy.
  { rewrite (transform_rpy_rows_only _ (rpy_cleared self)) by reflexivity.
    by rewrite Hrpy2. }
  set (mid := set_rpys (rpy_cleared self1) rows2) in *.
  set (mid2 := set_rpys (rpy_cleared self) rows2) in *.
  assert (Forall2 (fun o1 o2 => pose_obj calc quat_of mid q2 o1 = Some o2)
            objs1 objs2) as Hall.
  { apply Forall2_same_length_lookup_2.
    - apply Forall2_length in Hall1, Hall2. congruence.
    - intros i o1 o2 Ho1 Ho2.
      destruct (Forall2_lookup_r _ _ _ _ _ Hall1 Ho1) as (o & Ho & Hp1).
      pose proof (Forall2_lookup_lr _ _ _ _ _ _ Hall2 Ho Ho2) as Hp2.
      apply pose_obj_identity in Hp1 as [Hid Hroot].
      by rewrite (pose_obj_reads mid2 mid q2 o o1). }
  assert (foldl (pose_iter calc quat_of mid q2) (Some objs1)
            (seq 0 (length objs1)) = Some objs2) as Hloop.
  { destruct (pose_loop_total calc quat_of mid q2 objs1 (length objs1))
      as [objs12 Hl]; [|lia|].
    - apply Forall_forall. intros o1 [i Ho1]%list_elem_of_lookup.
      destruct (Forall2_lookup_l _ _ _ _ _ Hall Ho1) as (o2 & _ & ->). by eexists.
    - rewrite Hl. f_equal.
      destruct (pose_loop calc quat_of mid q2 _ _ objs12 (le_n _) Hl)
        as (Hlen & _ & Hposes).
      apply list_eq_same_length with (length objs1); [|done|].
      + by apply Forall2_length in Hall as <-.
      + intros i x y Hi Hx Hy.
        destruct (lookup_lt_is_Some_2 objs1 i Hi) as [o1 Ho1].
        destruct (Hposes i o1 Hi Ho1) as (o' & Ho' & Hp).
        pose proof (Forall2_lookup_lr _ _ _ _ _ _ Hall Ho1 Hy) as Hp'.
        congruence. }
  eexists. split.
  - unfold step_render. cbv zeta. fold (rpy_cleared self1).
    change (model (rpy_cleared self1)) with (model self).
    rewrite Hrpy. cbn [mbind option_bind].
    change (render_objects mid) with objs1. rewrite Hloop.
    cbn [mbind option_bind]. reflexivity.
  - cbn [render_objects rpys engine]. rewrite move_objs. by repeat split.
Qed.

Lemma rpy_iter_None (sm m : model_dict kin) q (l : list nat) :
  foldl (rpy_iter sm m q) None l = None.
Proof. induction l; [reflexivity | exact IHl]. Qed.

(** X16: when [model['parent']] has fewer entries than the renderer
    counts links, [transform_rpy] raises, whatever the angles. *)
Theorem transform_rpy_short_parent self m q :
  (length (parent (model self)) < NL self)%nat ->
  transform_rpy self m q = None.
Proof.
  intros Hlt. unfold transform_rpy.
  set (k := length (parent (model self))) in *.
  replace (NL self) with (k + S (NL self - S k))%nat at 2 by lia.
  rewrite seq_app, foldl_app. cbn [seq foldl Nat.add].
  assert (forall acc, rpy_iter (model self) m q acc k = None) as Hk.
  { intros [rows|]; [|reflexivity]. unfold rpy_iter. cbn [mbind option_bind].
    rewrite (lookup_ge_None_2 (parent (model self)) k) by (unfold k; lia).
    reflexivity. }
  rewrite Hk, rpy_iter_None. reflexivity.
Qed.

Lemma covers_of_lookups {A} (l : list A) (n : nat) :
  (forall i : nat, (i < n)%nat -> is_Some (l !! i)) -> (n <= length l)%nat.
Proof.
  intros Hall. destruct n as [|n]; [lia|].
  destruct (Hall n ltac:(lia)) as [x Hx]. apply lookup_lt_Some in Hx. lia.
Qed.

Lemma serial_z_ok (sm m : model_dict kin) q (n : nat) :
  serial_z sm m n -> (n <= length q)%nat -> rpy_ok sm m q n.
Proof.
  intros Hser Hq. unfold rpy_ok.
  split; [apply covers_of_lookups; intros i Hi; destruct (Hser i Hi) as (-> & _); eauto|].
  split; [apply covers_of_lookups; intros i Hi; destruct (Hser i Hi) as (_ & -> & _); eauto|].
  split; [apply covers_of_lookups; intros i Hi; destruct (Hser i Hi) as (_ & _ & ->); eauto|].
  split; [exact Hq|].
  apply Forall_lookup. intros i p Hp.
  apply lookup_take_Some in Hp as [Hp Hi].
  destruct (Hser i Hi) as (Hpar & _). rewrite Hpar in Hp. injection Hp as <-. lia.
Qed.

Lemma sum_take_S (q : list R) (i : nat) (qi : R) :
  q !! i = Some qi ->
  foldr Rplus 0 (take (S i) q) = foldr Rplus 0 (take i q) + qi.
Proof.
  intros Hq. rewrite (take_S_r _ _ _ Hq), foldr_app. cbn [foldr].
  generalize (take i q). intros l. induction l as [|x l IH]; cbn [foldr]; lra.
Qed.

(** X17: on a serial chain of revolute z joints, [transform_rpy]
    returns and the yaw of link i is the sum of the angles q[0..i], roll
    and pitch staying 0. *)
Theorem serial_chain_yaw self m q :
  serial_z (model self) m (NL self) -> (NL self <= length q)%nat ->
  exists self',
    transform_rpy self m q = Some self' /\
    forall i : nat, (i < NL self)%nat ->
      exists y, rpys self' !! i = Some (mk_rpy 0 0 y) /\
                y = foldr Rplus 0 (take (S i) q).
Proof.
  intros Hser Hq.
  destruct (transform_rpy_total self m q (serial_z_ok _ _ _ _ Hser Hq))
    as [self' Hret].
  exists self'. split; [exact Hret|].
  destruct (transform_rpy_inv _ _ _ _ Hret) as (rows & -> & Hlen & Hrows).
  cbn [rpys set_rpys].
  intros i. induction i as [i IH] using lt_wf_ind. intros Hi.
  destruct (Hrows i Hi) as (r & Hr & Hl).
  destruct (Hser i Hi) as (Hpar & Hjt & Hax).
  destruct (lookup_lt_is_Some_2 q i ltac:(lia)) as [qi Hqi].
  destruct i as [|i].
  - destruct (link_rpy_root _ _ _ _ _ Hl 0%Z Hjt) as [_ Hz].
    destruct (Hz eq_refl "z"%string qi Hax Hqi) as (_ & _ & Hr0).
    exists qi. rewrite Hr, (Hr0 eq_refl). split; [reflexivity|].
    rewrite (sum_take_S q 0 qi Hqi), take_0. cbn [foldr]. lra.
  - destruct (IH i ltac:(lia) ltac:(lia)) as (y & Hy & Hsum).
    destruct (link_rpy_child (model self) m q rows (S i) (Z.of_nat (S i)) r
                (mk_rpy 0 0 y)) with (jt := 0%Z) as [_ Hc]; try done; try lia.
    { replace (Z.to_nat (Z.of_nat (S i) - 1)) with i by lia. exact Hy. }
    rewrite (Hc eq_refl "z"%string qi Hax Hqi) in Hr.
    exists (y + qi). split; [exact Hr|].
    rewrite (sum_take_S q (S i) qi Hqi), Hsum. reflexivity.
Qed.
End PoseFacts.

(** *** Concrete instances *)

Lemma step_render_frame_witness :
  step_render demo_calc demo_quat (demo_render chain_model) [0.5; 1]
  = Some (chain_posed [0.5; 1]) /\
  model (chain_posed [0.5; 1]) = model (demo_render chain_model) /\
  NL (chain_posed [0.5; 1]) = NL (demo_render chain_model) /\
  rpy (chain_posed [0.5; 1]) = rpy_zero /\
  rpys (chain_posed [0.5; 1]) = j_rpys (chain_posed [0.5; 1]) /\
  length (rpys (chain_posed [0.5; 1])) = NL (demo_render chain_model) /\
  Forall2 same_identity (render_objects (demo_render chain_model))
          (render_objects (chain_posed [0.5; 1])) /\
  length (engine (chain_posed [0.5; 1]))
  = (length (engine (demo_render chain_model))
     + length (render_objects (demo_render chain_model)))%nat /\
  take (length (engine (demo_render chain_model))) (engine (chain_posed [0.5; 1]))
  = engine (demo_render chain_model).
Proof.
  assert (step_render demo_calc demo_quat (demo_render chain_model) [0.5; 1]
          = Some (chain_posed [0.5; 1])) as H1 by reflexivity.
  split; [exact H1|].
  exact (step_render_frame demo_calc demo_quat (demo_render chain_model)
           (chain_posed [0.5; 1]) [0.5; 1] H1).
Defined.

Lemma step_render_last_call_witness :
  step_render demo_calc demo_quat (demo_render chain_model) [0.5; 1]
  = Some (chain_posed [0.5; 1]) /\
  step_render demo_calc demo_quat (demo_render chain_model) [0; 2]
  = Some (chain_posed [0; 2]) /\
  exists s12,
    step_render demo_calc demo_quat (chain_posed [0.5; 1]) [0; 2] = Some s12 /\
    render_objects s12 = render_objects (chain_posed [0; 2]) /\
    rpys s12 = rpys (chain_posed [0; 2]) /\
    engine s12
    = engine (chain_posed [0.5; 1])
      ++ (pose_call <$> render_objects (chain_posed [0; 2])).
Proof.
  assert (step_render demo_calc demo_quat (demo_render chain_model) [0.5; 1]
          = Some (chain_posed [0.5; 1])) as H1 by reflexivity.
  assert (step_render demo_calc demo_quat (demo_render chain_model) [0; 2]
          = Some (chain_posed [0; 2])) as H2 by reflexivity.
  split; [exact H1|]. split; [exact H2|].
  exact (step_render_last_call demo_calc demo_quat (demo_render chain_model)
           (chain_posed [0.5; 1]) (chain_posed [0; 2]) [0.5; 1] [0; 2] H1 H2).
Defined.

Lemma transform_rpy_short_parent_witness :
  (length (parent (model long_render)) < NL long_render)%nat /\
  transform_rpy long_render chain_model [0; 0; 0] = None.
Proof.
  assert (length (parent (model long_render)) < NL long_render)%nat as H1
    by (cbn; lia).
  split; [exact H1|].
  exact (transform_rpy_short_parent long_render chain_model [0; 0; 0] H1).
Defined.

Lemma z_chain_serial : serial_z (model z_render) z_chain (NL z_render).
Proof.
  intros i Hi. change (NL z_render) with 3%nat in Hi.
  destruct i as [|[|[|i]]]; [by repeat split ..| lia].
Qed.

Lemma serial_chain_yaw_witness :
  serial_z (model z_render) z_chain (NL z_render) /\
  (NL z_render <= length [1; 2; 4])%nat /\
  exists self',
    transform_rpy z_render z_chain [1; 2; 4] = Some self' /\
    forall i : nat, (i < NL z_render)%nat ->
      exists y, rpys self' !! i = Some (mk_rpy 0 0 y) /\
                y = foldr Rplus 0 (take (S i) [1; 2; 4]).
Proof.
  assert (NL z_render <= length [1; 2; 4])%nat as H2 by (cbn; lia).
  split; [exact z_chain_serial|]. split; [exact H2|].
  exact (serial_chain_yaw z_render z_chain [1; 2; 4] z_chain_serial H2).
Defined.

(** ** The parent ids of [get_objects] *)

Lemma index_dict_snoc (names : list string) (x : string) :
  index_dict (names ++ [x]) = <[x := length names]> (index_dict names).
Proof.
  unfold index_dict. rewrite length_app. cbn [length].
  rewrite Nat.add_1_r, seq_S. cbn [Nat.add].
  rewrite zip_with_app by (by rewrite length_seq).
  rewrite foldl_app. reflexivity.
Qed.

Lemma index_dict_lookup (names : list string) (n : string) (i : nat) :
  index_dict names !! n = Some i ->
  names !! i = Some n /\ forall j : nat, (i < j)%nat -> names !! j <> Some n.
Proof.
  revert i. induction names as [|x names IH] using rev_ind; intros i.
  - unfold index_dict. cbn. by rewrite lookup_empty.
  - rewrite index_dict_snoc. destruct (decide (x = n)) as [->|Hne].
    + rewrite lookup_insert_eq. intros [= <-]. split.
      * by rewrite lookup_app_r, Nat.sub_diag.
      * intros j Hj Hn. apply lookup_lt_Some in Hn.
        rewrite length_app in Hn. cbn in Hn. lia.
    + rewrite lookup_insert_ne by done. intros Hi.
      destruct (IH i Hi) as [Hn Hlast]. split.
      * by apply lookup_app_l_Some.
      * intros j Hj Hjn. apply lookup_app_Some in Hjn as [Hjn|[_ Hjn]].
        -- by apply (Hlast j).
        -- apply list_lookup_singleton_Some in Hjn as [_ ?]. done.
Qed.

Lemma index_dict_is_Some (names : list string) (n : string) :
  is_Some (index_dict names !! n) <-> n ∈ names.
Proof.
  induction names as [|x names IH] using rev_ind.
  - unfold index_dict. cbn. rewrite lookup_empty. split; [by intros [??]|].
    by intros ?%elem_of_nil.
  - rewrite index_dict_snoc, lookup_insert_is_Some, IH, elem_of_app,
      list_elem_of_singleton.
    destruct (decide (x = n)) as [->|Hne]; [by split; auto|].
    split; [intros [?|[_ ?]]; [done | by left] | intros [?|?]; [by right | by subst]].
Qed.

Lemma index_dict_NoDup (names : list string) (n : string) (i : nat) :
  NoDup names -> names !! i = Some n -> index_dict names !! n = Some i.
Proof.
  intros Hnd Hi.
  destruct (proj2 (index_dict_is_Some names n)) as [i' Hi'];
    [by eapply list_elem_of_lookup_2|].
  destruct (index_dict_lookup _ _ _ Hi') as [Hn _].
  by rewrite Hi', (NoDup_lookup _ _ _ _ Hnd Hn Hi).
Qed.

Section Parents.
Variables (jname links : list string).
Local Abbreviation step := (set_parent (index_dict jname) (index_dict links)).

Lemma get_parents_snoc (joints : list joint) (j : joint) :
  get_parents jname links (joints ++ [j])
  = step (get_parents jname links joints) j.
Proof. unfold get_parents. by rewrite foldl_app. Qed.

Lemma step_Some (ps ps' : list nat) (j : joint) :
  step (Some ps) j = Some ps' <->
  exists pi ci k,
    index_dict links !! joint_parent j = Some pi /\
    index_dict links !! joint_child j = Some ci /\
    index_dict jname !! joint_name j = Some k /\
    ps' = <[ci := k]> ps.
Proof.
  unfold set_parent. cbn [mbind option_bind]. split.
  - destruct (index_dict links !! joint_parent j) as [pi|]; [|discriminate].
    destruct (index_dict links !! joint_child j) as [ci|]; [|discriminate].
    destruct (index_dict jname !! joint_name j) as [k|]; [|discriminate].
    cbn. intros [= <-]. by exists pi, ci, k.
  - intros (pi & ci & k & -> & -> & -> & ->). reflexivity.
Qed.

Lemma get_parents_length (joints : list joint) (parents : list nat) :
  get_parents jname links joints = Some parents ->
  length parents = length links.
Proof.
  revert parents. induction joints as [|j joints IH] using rev_ind; intros parents.
  - intros [= <-]. apply length_replicate.
  - rewrite get_parents_snoc.
    destruct (get_parents jname links joints) as [ps|]; [|discriminate].
    intros (pi & ci & k & _ & _ & _ & ->)%step_Some.
    rewrite length_insert. by apply IH.
Qed.

(** X18: the parent ids of [get_objects] are computed without [KeyError]
    exactly when every joint of the robot names two links of the robot and
    a joint of the model; the list then has one entry per link. *)
Theorem get_parents_returns (joints : list joint) :
  (is_Some (get_parents jname links joints)
   <-> Forall (known jname links) joints) /\
  forall parents, get_parents jname links joints = Some parents ->
    length parents = length links.
Proof.
  split; [|apply get_parents_length].
  induction joints as [|j joints IH] using rev_ind.
  - split; [constructor | by eexists].
  - rewrite get_parents_snoc, Forall_app, Forall_singleton.
    destruct (get_parents jname links joints) as [ps|] eqn:E.
    + split.
      * intros [ps' (pi & ci & k & Hp & Hc & Hk & _)%step_Some].
        split; [apply IH; by eexists|].
        unfold known. rewrite <- !index_dict_is_Some. eauto.
      * intros [_ (Hp & Hc & Hk)].
        apply index_dict_is_Some in Hp as [pi Hp], Hc as [ci Hc], Hk as [k Hk].
        exists (<[ci := k]> ps). apply step_Some. by exists pi, ci, k.
    + split.
      * intros [? ?]. discriminate.
      * intros [Hall _]. apply IH in Hall as [? ?]. discriminate.
Qed.

(** X19: a link that no joint has as its child keeps the parent id 0,
    the id of the root. *)
Theorem get_parents_root (joints : list joint) (parents : list nat)
    (i : nat) (n : string) :
  get_parents jname links joints = Some parents ->
  NoDup links -> links !! i = Some n ->
  Forall (fun j => joint_child j <> n) joints ->
  parents !! i = Some O.
Proof.
  intros Hget Hnd Hi. revert parents Hget.
  induction joints as [|j joints IH] using rev_ind; intros parents Hget Hall.
  - injection Hget as <-. apply lookup_replicate_2. by apply lookup_lt_Some in Hi.
  - rewrite get_parents_snoc in Hget.
    apply Forall_app in Hall as [Hall Hj%Forall_inv].
    destruct (get_parents jname links joints) as [ps|]; [|discriminate].
    apply step_Some in Hget as (pi & ci & k & _ & Hc & _ & ->).
    apply index_dict_lookup in Hc as [Hc _].
    rewrite list_lookup_insert_ne; [by apply IH|].
    intros ->. congruence.
Qed.

(** X20: when link names, model joint names and the children of the
    joints are each without repetition, the child link of a joint gets as
    parent id the index of that joint in [model['jname']]. *)
Theorem get_parents_child (joints : list joint) (parents : list nat)
    (j : joint) (c k : nat) :
  get_parents jname links joints = Some parents ->
  NoDup links -> NoDup jname -> NoDup (joint_child <$> joints) ->
  j ∈ joints ->
  links !! c = Some (joint_child j) -> jname !! k = Some (joint_name j) ->
  parents !! c = Some k.
Proof.
  intros Hget Hl Hj. revert parents Hget.
  induction joints as [|j' joints IH] using rev_ind;
    intros parents Hget Hnd Hin Hc Hk.
  - by apply elem_of_nil in Hin.
  - rewrite get_parents_snoc in Hget.
    destruct (get_parents jname links joints) as [ps|] eqn:E; [|discriminate].
    apply step_Some in Hget as (pi & ci & k' & _ & Hc' & Hk' & ->).
    rewrite fmap_app in Hnd. apply NoDup_app in Hnd as (Hnd & Hdis & _).
    pose proof (get_parents_length joints ps E) as Hlen.
    apply elem_of_app in Hin as [Hin|Hin%list_elem_of_singleton].
    + rewrite list_lookup_insert_ne; [by apply IH|].
      intros ->. apply index_dict_lookup in Hc' as [Hc' _].
      apply (Hdis (joint_child j)); [by apply list_elem_of_fmap_2|].
      cbn. rewrite Hc in Hc'. injection Hc' as ->. apply list_elem_of_here.
    + subst j'.
      rewrite (index_dict_NoDup _ _ _ Hl Hc) in Hc'. injection Hc' as <-.
      rewrite (index_dict_NoDup _ _ _ Hj Hk) in Hk'. injection Hk' as <-.
      apply list_lookup_insert_eq. rewrite Hlen. by apply lookup_lt_Some in Hc.
Qed.
End Parents.

(** *** Concrete instances *)

Lemma arm_parents : get_parents arm_jname arm_links arm_joints = Some [0; 0; 1]%nat.
Proof. vm_compute. reflexivity. Qed.

Lemma arm_links_NoDup : NoDup arm_links.
Proof. apply (bool_decide_unpack _). vm_compute. exact I. Qed.

Lemma arm_jname_NoDup : NoDup arm_jname.
Proof. apply (bool_decide_unpack _). vm_compute. exact I. Qed.

Lemma arm_children_NoDup : NoDup (joint_child <$> arm_joints).
Proof. apply (bool_decide_unpack _). vm_compute. exact I. Qed.

Lemma get_parents_root_witness :
  get_parents arm_jname arm_links arm_joints = Some [0; 0; 1]%nat /\
  NoDup arm_links /\ arm_links !! 0%nat = Some "base"%string /\
  Forall (fun j => joint_child j <> "base"%string) arm_joints /\
  [0; 0; 1]%nat !! 0%nat = Some O.
Proof.
  assert (Forall (fun j => joint_child j <> "base"%string) arm_joints) as H4
    by (repeat constructor; discriminate).
  split; [exact arm_parents|]. split; [exact arm_links_NoDup|].
  split; [reflexivity|]. split; [exact H4|].
  exact (get_parents_root arm_jname arm_links arm_joints [0; 0; 1]%nat 0
           "base"%string arm_parents arm_links_NoDup eq_refl H4).
Defined.

Lemma get_parents_child_witness :
  get_parents arm_jname arm_links arm_joints = Some [0; 0; 1]%nat /\
  NoDup arm_links /\ NoDup arm_jname /\ NoDup (joint_child <$> arm_joints) /\
  mk_joint "elbow" "upper" "lower" ∈ arm_joints /\
  arm_links !! 2%nat = Some (joint_child (mk_joint "elbow" "upper" "lower")) /\
  arm_jname !! 1%nat = Some (joint_name (mk_joint "elbow" "upper" "lower")) /\
  [0; 0; 1]%nat !! 2%nat = Some 1%nat.
Proof.
  assert (mk_joint "elbow" "upper" "lower" ∈ arm_joints) as H5
    by (apply list_elem_of_further, list_elem_of_here).
  split; [exact arm_parents|]. split; [exact arm_links_NoDup|].
  split; [exact arm_jname_NoDup|]. split; [exact arm_children_NoDup|].
  split; [exact H5|]. split; [reflexivity|]. split; [reflexivity|].
  exact (get_parents_child arm_jname arm_links arm_joints [0; 0; 1]%nat
           (mk_joint "elbow" "upper" "lower") 2 1 arm_parents arm_links_NoDup
           arm_jname_NoDup arm_children_NoDup H5 eq_refl eq_refl).
Defined.

End RenderExtSpec.
